(** * deepguard: ELA region extraction, feature assembly, scoring adapter
      and checksum-based dataset split

    Shallow embedding of [deepfake_model_ela_rf.py] and of
    [assign_split_from_checksum] of [deepfake_metadata.py].

    Conventions of the embedding
    - a 2-D numpy array is a list of rows; the ELA map holds uint8 values
      as [Z], a label image holds labels as [nat] (0 is background);
    - Python [int] is [Z]; a float64 is the rational it denotes ([Qc]).
      Arithmetic on floats is exact rational arithmetic, except in
      [assign_split_from_checksum], where the quotient and the constants
      are rounded to 53 bits ([fl_div]) and the rounding is shown not to
      matter; the square root of [np.std] is a parameter;
    - an exception is a value of [exn] carried by [result];
    - PIL (JPEG round trip, drawing), matplotlib (colour map) and the web
      framework are outside the embedding; scipy's [label],
      [binary_opening] and [find_objects] are modelled by their documented
      behaviour. *)

From Stdlib Require Import ZArith QArith Qcanon.
From stdpp Require Import base numbers list strings gmap sorting.

Local Open Scope Z_scope.
Local Open Scope Qc_scope.
Local Open Scope nat_scope.

(** ** Exceptions and the error monad *)

Inductive exn : Type :=
  | ValueError          (* reduction over an empty array, bad literal *)
  | ZeroDivisionError
  | KeyError (key : string)
  | TypeError
  | IndexError
  | AttributeError
  | RuntimeError        (* "Model artifacts missing. ..." *)
  | LoadError.          (* joblib / json could not read the file *)

Inductive result (A : Type) : Type :=
  | Ok (a : A)
  | Raise (e : exn).
Arguments Ok {A} a.
Arguments Raise {A} e.

Global Instance result_ret : MRet result := λ A a, Ok a.
Global Instance result_bind : MBind result := λ A B k m,
  match m with
  | Ok a => k a
  | Raise e => Raise e
  end.

(** Monadic left fold: a [for] loop whose body may raise. *)
Fixpoint rfold {A B} (f : A → B → result A) (acc : A) (l : list B) : result A :=
  match l with
  | [] => Ok acc
  | b :: l' => acc' ← f acc b; rfold f acc' l'
  end.

(** ** Arrays *)

Abbreviation array2 A := (list (list A)).

Definition lookup2 {A} (a : array2 A) (y x : nat) : option A :=
  a !! y ≫= (.!! x).

(** [a.size] *)
Definition array_size {A} (a : array2 A) : nat :=
  sum_list (length <$> a).

(** [np.zeros_like] / [np.full_like] *)
Definition full_like {A B} (a : array2 A) (v : B) : array2 B :=
  (λ row : list A, (λ _, v) <$> row) <$> a.

(** [a.ravel()]: row-major flattening. *)
Definition ravel {A} (a : array2 A) : list A := mjoin a.

(** Row-major list of the indices [(y, x)] at which [p] holds; this is
    [np.argwhere] of the boolean array [p(a)]. *)
Definition argwhere {A} (p : A → bool) (a : array2 A) : list (nat * nat) :=
  mjoin (imap (λ y row,
    omap id (imap (λ x v, if p v then Some (y, x) else None) row)) a).

(** Boolean-mask indexing [vals[sel]]: the values of [vals] where the
    boolean array [sel] is true, row-major. *)
Definition select {A} (vals : array2 A) (sel : array2 bool) : list A :=
  mjoin (zip_with (λ vrow srow,
    omap id (zip_with (λ v (s : bool), if s then Some v else None) vrow srow))
    vals sel).

(** [int(np.sum(mask))] *)
Definition count_true (m : array2 bool) : nat :=
  length (filter (λ b, b = true) (ravel m)).

(** A pair of slices [(slice(y0, y1), slice(x0, x1))], stops exclusive. *)
Record slice2 : Type := Slice2 {
  y_start : nat; y_stop : nat; x_start : nat; x_stop : nat
}.

(** [a[slice_obj]] *)
Definition crop {A} (a : array2 A) (s : slice2) : array2 A :=
  (λ row, take (x_stop s - x_start s) (drop (x_start s) row))
    <$> take (y_stop s - y_start s) (drop (y_start s) a).

(** ** scipy.ndimage primitives

    [binary_opening], [label] and [find_objects] are library functions of
    scipy; they are modelled here by their documented behaviour on 2-D
    arrays. *)

Definition mask_at (m : array2 bool) (y x : nat) : bool :=
  default false (lookup2 m y x).

Definition label_at (l : array2 nat) (y x : nat) : nat :=
  default 0 (lookup2 l y x).

(** Erosion by the 2x2 structuring element [np.ones((2, 2))]: the centre of
    an even-sized element is at index 1, so the element covers the offsets
    -1 and 0 on each axis; outside the image the input counts as false
    ([border_value=0]). *)
Definition erode2x2 (m : array2 bool) : array2 bool :=
  imap (λ y row, imap (λ x _,
    match y, x with
    | S y', S x' =>
        mask_at m y' x' && mask_at m y' x && mask_at m y x' && mask_at m y x
    | _, _ => false
    end) row) m.

(** Dilation by the same element (the adjoint of the erosion above). *)
Definition dilate2x2 (m : array2 bool) : array2 bool :=
  imap (λ y row, imap (λ x _,
    mask_at m y x || mask_at m (S y) x || mask_at m y (S x)
      || mask_at m (S y) (S x)) row) m.

(** [binary_opening(mask, structure=np.ones((2, 2)), iterations=1)] *)
Definition binary_opening (m : array2 bool) : array2 bool :=
  dilate2x2 (erode2x2 m).

(** [lab[y, x] = c] *)
Definition set2 {A} (a : array2 A) (y x : nat) (c : A) : array2 A :=
  alter (λ row, <[x := c]> row) y a.

(** 4-connected neighbours (the default structuring element of
    [ndimage.label]). *)
Definition neighbours (y x : nat) : list (nat * nat) :=
  match y with S y' => [(y', x)] | O => [] end
  ++ [(S y, x)]
  ++ match x with S x' => [(y, x')] | O => [] end
  ++ [(y, S x)].

(** Flood fill of the component of the seeds in [work] with label [c]. *)
Fixpoint flood (m : array2 bool) (c : nat) (fuel : nat)
    (work : list (nat * nat)) (lab : array2 nat) : array2 nat :=
  match fuel with
  | O => lab
  | S fuel' =>
      match work with
      | [] => lab
      | (y, x) :: rest =>
          if mask_at m y x && (label_at lab y x =? 0)
          then flood m c fuel' (neighbours y x ++ rest) (set2 lab y x c)
          else flood m c fuel' rest lab
      end
  end.

(** Row-major list of all indices of an array. *)
Definition indices {A} (a : array2 A) : list (nat * nat) :=
  argwhere (λ _, true) a.

Definition label_step (m : array2 bool) (st : array2 nat * nat)
    (p : nat * nat) : array2 nat * nat :=
  let '(lab, n) := st in
  let '(y, x) := p in
  if mask_at m y x && (label_at lab y x =? 0)
  then (flood m (S n) (4 * array_size m + 1) [(y, x)] lab, S n)
  else (lab, n).

(** [ndimage.label(mask)]: components are numbered 1, 2, ... in row-major
    order of their first pixel; returns the label image and the number of
    components. *)
Definition ndimage_label (m : array2 bool) : array2 nat * nat :=
  foldl (label_step m) (full_like m 0, 0) (indices m).

(** Largest label of a label image ([labeled.max()], 0 when empty). *)
Definition max_label (lab : array2 nat) : nat := max_list (ravel lab).

(** The entries of an array with their indices, row-major. *)
Definition enumerate2 {A} (a : array2 A) : list (nat * nat * A) :=
  mjoin (imap (λ y row, imap (λ x v, (y, x, v)) row) a).

(** The bounding slices [o] of a label, grown to contain the pixel
    [(y, x)]. *)
Definition grow (y x : nat) (o : option slice2) : option slice2 :=
  match o with
  | None => Some (Slice2 y (S y) x (S x))
  | Some s =>
      Some (Slice2 (Nat.min (y_start s) y) (Nat.max (y_stop s) (S y))
                   (Nat.min (x_start s) x) (Nat.max (x_stop s) (S x)))
  end.

(** [find_objects(labeled)]: for every label 1 .. max the bounding slices of
    the label, or [None] when the label does not occur. *)
Definition find_objects (lab : array2 nat) : list (option slice2) :=
  foldl (λ acc '(y, x, v),
           match v with
           | O => acc
           | S k => alter (grow y x) k acc
           end)
        (replicate (max_label lab) None) (enumerate2 lab).

(** ** Region extraction: [find_suspicious_regions] *)

(** A bounding box [(x, y, width, height)]. *)
Definition box : Type := Z * Z * Z * Z.

(** The three index-aligned result lists
    [(boxes, region_sizes, region_intensities)]. *)
Definition regions : Type := list box * list Z * list Qc.

Definition no_regions : regions := ([], [], []).

(** The three components. *)
Definition r_boxes (r : regions) : list box := r.1.1.
Definition r_sizes (r : regions) : list Z := r.1.2.
Definition r_means (r : regions) : list Qc := r.2.

Definition Zsum (l : list Z) : Z := foldr Z.add 0%Z l.

(** [float(np.mean(values))] of integer values: the sum is exact in
    float64, so the mean is the quotient (0 stands for numpy's nan on an
    empty list, which the callers never reach). *)
Definition np_mean_Z (l : list Z) : Qc :=
  (Qc_of_Z (Zsum l) / Qc_of_Z (Z.of_nat (length l)))%Qc.

(** [labeled == i] *)
Definition eq_label (i : nat) (lab : array2 nat) : array2 bool :=
  (λ row : list nat, (λ v, v =? i) <$> row) <$> lab.

(** [enumerate(l, start)] *)
Definition enumerate {A} (start : nat) (l : list A) : list (nat * A) :=
  imap (λ k v, (start + k, v)) l.

Definition push_region (acc : regions) (b : box) (size : Z) (mean : Qc)
    : regions :=
  let '(boxes, region_sizes, region_intensities) := acc in
  (boxes ++ [b], region_sizes ++ [size], region_intensities ++ [mean]).

(** Body of the loop of the bounding-slice strategy
    ([for i, slice_obj in enumerate(slices, 1)]). *)
Definition slice_step (ela : array2 Z) (labeled : array2 nat) (min_area : Z)
    (acc : regions) (it : nat * option slice2) : regions :=
  let '(i, slice_obj) := it in
  match slice_obj with
  | None => acc
  | Some s =>
      let region_mask := eq_label i (crop labeled s) in
      let region_size := Z.of_nat (count_true region_mask) in
      if (region_size <? min_area)%Z then acc
      else
        let y_min := Z.of_nat (y_start s) in
        let y_max := Z.of_nat (y_stop s) in
        let x_min := Z.of_nat (x_start s) in
        let x_max := Z.of_nat (x_stop s) in
        let width := (x_max - x_min)%Z in
        let height := (y_max - y_min)%Z in
        if (10 <? width)%Z && (10 <? height)%Z then
          let region_values := select (crop ela s) region_mask in
          push_region acc (x_min, y_min, width, height) region_size
            (np_mean_Z region_values)
        else acc
  end.

(** The bounding-slice strategy (branch [num_features > 1000]). *)
Definition extract_by_slices (ela : array2 Z) (labeled : array2 nat)
    (min_area : Z) : regions :=
  foldl (slice_step ela labeled min_area) no_regions
    (enumerate 1 (find_objects labeled)).

(** [coords.min(axis=0)] and [coords.max(axis=0)] of an (n, 2) array of
    indices; numpy raises ValueError on an empty one. *)
Definition axis_min (cs : list (nat * nat)) : result (Z * Z) :=
  match cs with
  | [] => Raise ValueError
  | (y, x) :: cs' =>
      Ok (Z.of_nat (foldr Nat.min y (fst <$> cs')),
          Z.of_nat (foldr Nat.min x (snd <$> cs')))
  end.

Definition axis_max (cs : list (nat * nat)) : result (Z * Z) :=
  match cs with
  | [] => Raise ValueError
  | (y, x) :: cs' =>
      Ok (Z.of_nat (foldr Nat.max y (fst <$> cs')),
          Z.of_nat (foldr Nat.max x (snd <$> cs')))
  end.

(** Body of the loop of the coordinate-enumeration strategy
    ([for i in range(1, num_features + 1)]). *)
Definition coord_step (ela : array2 Z) (labeled : array2 nat) (min_area : Z)
    (acc : regions) (i : nat) : result regions :=
  let coords := argwhere (λ v, v =? i) labeled in
  if (Z.of_nat (length coords) <? min_area)%Z then Ok acc
  else
    '(y_min, x_min) ← axis_min coords;
    '(y_max, x_max) ← axis_max coords;
    let width := (x_max - x_min)%Z in
    let height := (y_max - y_min)%Z in
    if (10 <? width)%Z && (10 <? height)%Z then
      let region_values := select ela (eq_label i labeled) in
      Ok (push_region acc (x_min, y_min, width, height)
            (Z.of_nat (length coords)) (np_mean_Z region_values))
    else Ok acc.

(** The loop of the coordinate strategy over a list of labels. *)
Definition coord_loop (ela : array2 Z) (labeled : array2 nat) (min_area : Z)
    (labels : list nat) : result regions :=
  rfold (coord_step ela labeled min_area) no_regions labels.

(** The coordinate-enumeration strategy (branch [num_features <= 1000]). *)
Definition extract_by_coords (ela : array2 Z) (labeled : array2 nat)
    (num_features : nat) (min_area : Z) : result regions :=
  coord_loop ela labeled min_area (seq 1 num_features).

(** [ela_array > threshold] *)
Definition gt_mask (ela : array2 Z) (threshold : Qc) : array2 bool :=
  (λ row : list Z, (λ v, bool_decide (threshold < Qc_of_Z v)%Qc) <$> row)
    <$> ela.

(** The noise test [(num_suspicious / ela_array.size * 100) > 15]. The
    quotient of two pixel counts is within a relative 2^-52 of the exact
    value and the nearest other fraction is much further from 15/100, so
    the float comparison agrees with the exact one. *)
Definition noisy (num_suspicious size : nat) : bool :=
  bool_decide (Qc_of_Z 15 <
    Qc_of_Z (Z.of_nat num_suspicious) / Qc_of_Z (Z.of_nat size)
      * Qc_of_Z 100)%Qc.

Definition find_suspicious_regions (ela_array : array2 Z) (threshold : Qc)
    (min_area : Z) : result regions :=
  let suspicious_mask := gt_mask ela_array threshold in
  let num_suspicious := count_true suspicious_mask in
  if num_suspicious =? 0 then Ok no_regions
  else
    let suspicious_mask :=
      if noisy num_suspicious (array_size ela_array)
      then binary_opening suspicious_mask
      else suspicious_mask in
    let '(labeled_array, num_features) := ndimage_label suspicious_mask in
    if num_features =? 0 then Ok no_regions
    else if 1000 <? num_features
    then Ok (extract_by_slices ela_array labeled_array min_area)
    else extract_by_coords ela_array labeled_array num_features min_area.

(** ** Feature extraction: [extract_features] *)

Definition Qsum (l : list Qc) : Qc := foldr Qcplus 0%Qc l.

(** [float(np.mean(values))] of float values. *)
Definition np_mean_Q (l : list Qc) : Qc :=
  (Qsum l / Qc_of_Z (Z.of_nat (length l)))%Qc.

(** [np.max] and [np.min]; numpy raises ValueError on an empty array. *)
Definition np_max (l : list Z) : result Z :=
  match l with
  | [] => Raise ValueError
  | v :: l' => Ok (foldr Z.max v l')
  end.

Definition np_min (l : list Z) : result Z :=
  match l with
  | [] => Raise ValueError
  | v :: l' => Ok (foldr Z.min v l')
  end.

(** [np.var]: the mean of the squared deviations from the mean. *)
Definition np_var (l : list Z) : Qc :=
  let m := np_mean_Z l in
  np_mean_Q ((λ v, (Qc_of_Z v - m) * (Qc_of_Z v - m))%Qc <$> l).

(** [np.sort] *)
Definition np_sort (l : list Z) : list Z := merge_sort Z.le l.

(** [np.median]: the middle value of the sorted data, or the mean of the
    two middle values. *)
Definition np_median (l : list Z) : Qc :=
  let s := np_sort l in
  let n := length s in
  if Nat.even n
  then ((Qc_of_Z (s !!! (Nat.div n 2 - 1)%nat) + Qc_of_Z (s !!! Nat.div n 2))
          / Qc_of_Z 2)%Qc
  else Qc_of_Z (s !!! Nat.div n 2).

(** One entry of [np.percentile(a, q)] (linear interpolation between the
    two order statistics around the virtual index [q / 100 * (n - 1)]). *)
Definition percentile_at (l : list Z) (q : Z) : Qc :=
  let s := np_sort l in
  let n := Z.of_nat (length s) in
  let lo := (q * (n - 1) / 100)%Z in
  let hi := Z.min (lo + 1) (n - 1) in
  let gamma := (Qc_of_Z (q * (n - 1)) / Qc_of_Z 100 - Qc_of_Z lo)%Qc in
  let a_lo := Qc_of_Z (s !!! Z.to_nat lo) in
  let a_hi := Qc_of_Z (s !!! Z.to_nat hi) in
  (a_lo + gamma * (a_hi - a_lo))%Qc.

(** [np.percentile(a, qs)]: one value per requested percentile. *)
Definition np_percentile (l : list Z) (qs : list Z) : list Qc :=
  percentile_at l <$> qs.

(** Bin of a value in [np.histogram(a, bins=10, range=(0, 255))]: the edges
    are 0, 25.5, ..., 255, every bin is closed on the left and the last one
    also on the right; values outside the range are not counted. *)
Definition hist_bin (v : Z) : option nat :=
  if (0 <=? v)%Z && (v <=? 255)%Z
  then Some (Z.to_nat (Z.min 9 (v * 10 / 255)))
  else None.

Definition np_histogram (l : list Z) : list Z :=
  (λ k, Z.of_nat (length (filter (λ v, hist_bin v = Some k) l))) <$> seq 0 10.

(** uint8 subtraction wraps around. *)
Definition uint8_sub (a b : Z) : Z := ((a - b) mod 256)%Z.

(** [np.diff(a, axis=0)] and [np.diff(a, axis=1)] on a uint8 array. *)
Definition np_diff0 (a : array2 Z) : array2 Z :=
  zip_with (zip_with (λ prev next, uint8_sub next prev)) a (tail a).

Definition np_diff1 (a : array2 Z) : array2 Z :=
  (λ row, zip_with (λ prev next, uint8_sub next prev) row (tail row)) <$> a.

(** Python's [a / b] on numbers. *)
Definition py_div (a b : Qc) : result Qc :=
  if decide (b = 0%Qc) then Raise ZeroDivisionError else Ok (a / b)%Qc.

(** The 8-field [feature_dict]. *)
Record feature_summary : Type := FeatureSummary {
  fs_mean_error : Qc;
  fs_max_error : Qc;
  fs_std_error : Qc;
  fs_median_error : Qc;
  fs_threshold : Qc;
  fs_suspicious_pixels : Z;
  fs_suspicious_percentage : Qc;
  fs_num_regions : nat
}.

(** The tuple returned by [extract_features]. *)
Record extracted : Type := Extracted {
  features : list Qc;
  ex_ela_array : array2 Z;
  ex_threshold : Qc;
  ex_boxes : list box;
  feature_dict : feature_summary
}.

Section Numerics.
(** The square root of [np.std]. *)
Variable np_sqrt : Qc → Qc.

Definition np_std (l : list Z) : Qc := np_sqrt (np_var l).

(** The five region aggregates
    [num_regions, avg_region_size, max_region_size,
     avg_region_intensity, region_size_std]; each reduction is guarded by
    [... if region_sizes else 0.0]. *)
Definition region_aggregates (r : regions) : result (list Qc) :=
  let '(boxes, region_sizes, region_intensities) := r in
  let num_regions := length boxes in
  let avg_region_size :=
    match region_sizes with [] => 0%Qc | _ => np_mean_Z region_sizes end in
  max_region_size ←
    match region_sizes with
    | [] => Ok 0%Qc
    | _ => m ← np_max region_sizes; Ok (Qc_of_Z m)
    end;
  let avg_region_intensity :=
    match region_intensities with
    | [] => 0%Qc
    | _ => np_mean_Q region_intensities
    end in
  let region_size_std :=
    match region_sizes with [] => 0%Qc | _ => np_std region_sizes end in
  Ok [Qc_of_Z (Z.of_nat num_regions); avg_region_size; max_region_size;
      avg_region_intensity; region_size_std].

(** [extract_features] from the ELA map on ([perform_ela], the JPEG
    round trip through PIL, is outside the embedding); the two numbers
    are [ELA_CFG.threshold_multiplier] and [ELA_CFG.min_region_size]. *)
Definition extract_features (threshold_multiplier : Qc)
    (min_region_size : Z) (ela_array : array2 Z) : result extracted :=
  let flat := ravel ela_array in
  let size := Qc_of_Z (Z.of_nat (array_size ela_array)) in
  let mean_error := np_mean_Z flat in
  max_v ← np_max flat;
  let max_error := Qc_of_Z max_v in
  let std_error := np_std flat in
  let median_error := np_median flat in
  let threshold := (mean_error + threshold_multiplier * std_error)%Qc in
  let suspicious_pixels :=
    Z.of_nat (count_true (gt_mask ela_array threshold)) in
  ratio ← py_div (Qc_of_Z suspicious_pixels) size;
  let suspicious_percentage := (ratio * Qc_of_Z 100)%Qc in
  r ← find_suspicious_regions ela_array threshold min_region_size;
  aggregates ← region_aggregates r;
  let hist := np_histogram flat in
  let hist_norm := (λ c, Qc_of_Z c / size)%Qc <$> hist in
  match np_percentile flat [25; 50; 75; 90; 95]%Z with
  | [p25; p50; p75; p90; p95] =>
      let edges_h := Qc_of_Z (Zsum (ravel (np_diff0 ela_array))) in
      let edges_v := Qc_of_Z (Zsum (ravel (np_diff1 ela_array))) in
      Ok {|
        features :=
          [mean_error; max_error; std_error; median_error; threshold;
           Qc_of_Z suspicious_pixels; suspicious_percentage]
          ++ aggregates
          ++ hist_norm
          ++ [p25; p50; p75; p90; p95]
          ++ [edges_h; edges_v];
        ex_ela_array := ela_array;
        ex_threshold := threshold;
        ex_boxes := r_boxes r;
        feature_dict := {|
          fs_mean_error := mean_error;
          fs_max_error := max_error;
          fs_std_error := std_error;
          fs_median_error := median_error;
          fs_threshold := threshold;
          fs_suspicious_pixels := suspicious_pixels;
          fs_suspicious_percentage := suspicious_percentage;
          fs_num_regions := length (r_boxes r)
        |}
      |}
  | _ => Raise ValueError   (* unpacking fails *)
  end.
End Numerics.

(** ** Heat map normalisation: [_ela_heatmap_image] *)

(** [ptp_val or 1] *)
Definition guarded_ptp (ptp_val : Z) : Z :=
  if (ptp_val =? 0)%Z then 1%Z else ptp_val.

(** The array [normalized] of [_ela_heatmap_image] (the colour map of
    matplotlib applied to it is outside the embedding). *)
Definition heatmap_normalized (ela_array : array2 Z) : result (array2 Qc) :=
  let flat := ravel ela_array in
  hi ← np_max flat;
  lo ← np_min flat;
  let ptp_val := (hi - lo)%Z in
  Ok ((λ row : list Z,
         (λ v, Qc_of_Z (v - lo) / Qc_of_Z (guarded_ptp ptp_val))%Qc <$> row)
        <$> ela_array).

(** ** Selection of the boxes to draw (in [analyze_image]) *)

Definition TOP_N_BOXES : nat := 10.

(** [b[2] * b[3]] *)
Definition box_area (b : box) : Z :=
  let '(_, _, w, h) := b in (w * h)%Z.

(** Insertion of [x] into a list sorted by decreasing key, before the
    first element whose key is not larger than that of [x]. *)
Fixpoint insert_desc {A} (key : A → Z) (x : A) (l : list A) : list A :=
  match l with
  | [] => [x]
  | y :: l' =>
      if (key x <? key y)%Z then y :: insert_desc key x l' else x :: y :: l'
  end.

(** [sorted(l, key=key, reverse=True)]: Python's sort is stable, and
    [reverse=True] keeps the original order of elements with equal keys. *)
Definition sorted_desc {A} (key : A → Z) (l : list A) : list A :=
  foldr (insert_desc key) [] l.

(** The lines of [analyze_image] that compute [top_boxes]. *)
Definition select_top_boxes (boxes : list box) : list box :=
  let boxes_with_sizes := zip boxes (box_area <$> boxes) in
  let boxes_sorted := sorted_desc snd boxes_with_sizes in
  fst <$> take TOP_N_BOXES boxes_sorted.

(** ** Dataset split: [assign_split_from_checksum] *)

(** Value of a hexadecimal digit, in either case. *)
Definition hex_value (c : Ascii.ascii) : option Z :=
  let n := Z.of_N (Ascii.N_of_ascii c) in
  if (48 <=? n)%Z && (n <=? 57)%Z then Some (n - 48)%Z
  else if (97 <=? n)%Z && (n <=? 102)%Z then Some (n - 87)%Z
  else if (65 <=? n)%Z && (n <=? 70)%Z then Some (n - 55)%Z
  else None.

Fixpoint int16_from (acc : Z) (s : string) : result Z :=
  match s with
  | EmptyString => Ok acc
  | String c s' =>
      match hex_value c with
      | Some d => int16_from (acc * 16 + d) s'
      | None => Raise ValueError
      end
  end.

(** [int(s, 16)] on strings of hexadecimal digits; the empty string and any
    other character raise ValueError (the signs, prefixes, underscores and
    blanks that Python also accepts do not occur in a hex digest). *)
Definition int16 (s : string) : result Z :=
  match s with
  | EmptyString => Raise ValueError
  | _ => int16_from 0 s
  end.

(** Nearest integer to [a / b] for [b > 0], ties to the even one. *)
Definition round_half_even (a b : Z) : Z :=
  let q := (a / b)%Z in
  let r2 := (2 * (a mod b))%Z in
  if (r2 <? b)%Z then q
  else if (b <? r2)%Z then (q + 1)%Z
  else if Z.even q then q else (q + 1)%Z.

(** Binary exponent of the float64 quotient of [0 <= n <= d]: the [k] with
    [2^52 <= n / d * 2^k < 2^53]. *)
Definition quotient_exponent (n d : Z) : Z :=
  let k := (52 + (Z.log2 d - Z.log2 n))%Z in
  if (n * 2 ^ k <? 2 ^ 52 * d)%Z then (k + 1)%Z else k.

(** The float64 quotient [n / d] of two integers [0 <= n <= d] that are
    themselves floats: the exact quotient rounded to a 53-bit mantissa,
    ties to even. A decimal literal such as [0.8] is read the same way. *)
Definition fl_div (n d : Z) : Qc :=
  let k := quotient_exponent n d in
  (Qc_of_Z (round_half_even (n * 2 ^ k) d) / Qc_of_Z (2 ^ k))%Qc.

(** [SPLIT_THRESHOLDS = (0.8, 0.9)] *)
Definition SPLIT_THRESHOLDS : Qc * Qc := (fl_div 8 10, fl_div 9 10).

Definition assign_split_from_checksum (sha : string) : result string :=
  n ← int16 (String.substring 0 8 sha);
  let r := fl_div n 0xFFFFFFFF in
  let '(t, v) := SPLIT_THRESHOLDS in
  if decide (r < t)%Qc then Ok "train"
  else if decide (r < v)%Qc then Ok "val"
  else Ok "test".

(** ** Model artifacts: [_load_artifacts] *)

(** A parsed JSON document. *)
#[warnings="-register-all"] Inductive json : Type :=
  | JNull
  | JBool (b : bool)
  | JInt (n : Z)
  | JFloat (q : Qc)
  | JString (s : string)
  | JArray (items : list json)
  | JObject (members : gmap string json).

(** The trained classifier and the scaler are opaque objects; the
    embedding keeps the methods that [analyze_image] calls, applied to the
    one sample of a request. *)
Record Classifier : Type := {
  predict : list Qc → Z;               (* [RF_MODEL.predict(x)[0]] *)
  predict_proba : list Qc → list Qc    (* [RF_MODEL.predict_proba(x)[0]] *)
}.

Record Scaler : Type := {
  transform : list Qc → list Qc        (* [SCALER.transform(x)] *)
}.

(** The dataclass [ElaConfig]; Python checks no field types, so a field
    holds whatever JSON value the configuration has. *)
Record ElaConfig : Type := {
  ela_quality : json;
  threshold_multiplier : json;
  min_region_size : json;
  enhancement_strength : json;
  feature_names : json
}.

(** What is found at the path of an artifact. *)
Inductive file (A : Type) : Type :=
  | Absent                 (* [path.exists()] is false *)
  | Unreadable             (* exists, but loading it raises *)
  | Holds (content : A).
Arguments Absent {A}.
Arguments Unreadable {A}.
Arguments Holds {A} content.

(** The directory [feature_model_output/]. *)
Record artifact_dir : Type := {
  MODEL_PATH : file Classifier;     (* random_forest_model.pkl *)
  SCALER_PATH : file Scaler;        (* feature_scaler.pkl *)
  CONFIG_PATH : file json           (* feature_config.json *)
}.

Definition path_exists {A} (f : file A) : bool :=
  match f with Absent => false | _ => true end.

(** [joblib.load(path)] and [json.load(open(path))] *)
Definition load {A} (f : file A) : result A :=
  match f with
  | Holds a => Ok a
  | _ => Raise LoadError
  end.

(** [config[key]] *)
Definition getitem (config : json) (key : string) : result json :=
  match config with
  | JObject members =>
      match members !! key with
      | Some v => Ok v
      | None => Raise (KeyError key)
      end
  | _ => Raise TypeError
  end.

(** [config.get(key, default)] *)
Definition get_default (config : json) (key : string) (default : json)
    : result json :=
  match config with
  | JObject members => Ok (from_option id default (members !! key))
  | _ => Raise AttributeError
  end.

Definition _load_artifacts (dir : artifact_dir)
    : result (Classifier * Scaler * ElaConfig) :=
  if negb (path_exists (MODEL_PATH dir) && path_exists (SCALER_PATH dir)
           && path_exists (CONFIG_PATH dir))
  then Raise RuntimeError
  else
    rf_model ← load (MODEL_PATH dir);
    scaler ← load (SCALER_PATH dir);
    config ← load (CONFIG_PATH dir);
    q ← getitem config "ela_quality";
    m ← getitem config "threshold_multiplier";
    s ← getitem config "min_region_size";
    e ← getitem config "enhancement_strength";
    names ← get_default config "feature_names" (JArray []);
    Ok (rf_model, scaler,
        {| ela_quality := q; threshold_multiplier := m; min_region_size := s;
           enhancement_strength := e; feature_names := names |}).

(** ** Scoring (in [analyze_image]) *)

(** [l[i]] *)
Definition py_index {A} (l : list A) (i : nat) : result A :=
  match l !! i with
  | Some a => Ok a
  | None => Raise IndexError
  end.

(** The [analysis_panel] of the response. *)
Record analysis_panel : Type := {
  label : string;
  prob_real : Qc;          (* ["probabilities"]["real"] *)
  prob_fake : Qc;          (* ["probabilities"]["fake"] *)
  fake_probability : Qc;
  is_fake : bool
}.

(** The lines of [analyze_image] from the scaling of the features to the
    analysis panel. *)
Definition score (rf_model : Classifier) (scaler : Scaler)
    (feature_vector : list Qc) : result analysis_panel :=
  let features_scaled := transform scaler feature_vector in
  let pred := predict rf_model features_scaled in
  let proba := predict_proba rf_model features_scaled in
  real_prob ← py_index proba 0;
  fake_prob ← py_index proba 1;
  let is_fake := bool_decide (pred = 1%Z) in
  Ok {| label := if is_fake then "FAKE" else "REAL";
        prob_real := real_prob;
        prob_fake := fake_prob;
        fake_probability := fake_prob;
        is_fake := is_fake |}.

(** ** The request handler: [analyze_image] *)

(** The part of the response that does not consist of rendered images. *)
Record response : Type := {
  analysis : analysis_panel;
  top_boxes : list box;
  threshold : Qc;
  feature_summary_of : feature_summary
}.

(** [analyze_image] from the ELA map of the decoded upload on: feature
    extraction, scoring, selection of the boxes to draw. The empty or
    undecodable upload (HTTP 400) is rejected before, and the rendering of
    the overlays comes after and does not change these fields. *)
Definition analyze_image (np_sqrt : Qc → Qc) (rf_model : Classifier)
    (scaler : Scaler) (threshold_multiplier : Qc) (min_region_size : Z)
    (ela_array : array2 Z) : result response :=
  out ← extract_features np_sqrt threshold_multiplier min_region_size
          ela_array;
  panel ← score rf_model scaler (features out);
  Ok {| analysis := panel;
        top_boxes := select_top_boxes (ex_boxes out);
        threshold := ex_threshold out;
        feature_summary_of := feature_dict out |}.

(** ** Notions used in the statements *)

Definition shape {A} (a : array2 A) : list nat := length <$> a.

(** Invariant of the labelling scan: the label image has the shape of the
    mask and each of the labels [1 .. n] handed out so far is carried by
    some pixel. *)
Definition label_inv (m : array2 bool) (st : array2 nat * nat) : Prop :=
  shape st.1 = shape m ∧
  ∀ i, 1 ≤ i ≤ st.2 → ∃ y x, label_at st.1 y x = i.

(** The region lists are index-aligned. *)
Definition aligned (r : regions) : Prop :=
  length (r_boxes r) = length (r_sizes r) ∧
  length (r_boxes r) = length (r_means r).

(** A loop body that leaves the accumulator alone or appends one region. *)
Definition appends_only {B} (f : regions → B → result regions) : Prop :=
  ∀ acc b acc', f acc b = Ok acc' →
    acc' = acc ∨ ∃ bx sz mn, acc' = push_region acc bx sz mn.

(** The loop of the bounding-slice strategy over a list of items. *)
Definition slice_loop (ela : array2 Z) (labeled : array2 nat) (min_area : Z)
    (items : list (nat * option slice2)) : regions :=
  foldl (slice_step ela labeled min_area) no_regions items.

(** Pixel count of component [i] as the slice strategy computes it. *)
Definition slice_region_size (labeled : array2 nat) (i : nat) (s : slice2) : Z :=
  Z.of_nat (count_true (eq_label i (crop labeled s))).

(** Pixel count of component [i] as the coordinate strategy computes it. *)
Definition coord_region_size (labeled : array2 nat) (i : nat) : Z :=
  Z.of_nat (length (argwhere (λ v, v =? i) labeled)).

(** Width and height as the slice strategy computes them. *)
Definition slice_width (s : slice2) : Z :=
  (Z.of_nat (x_stop s) - Z.of_nat (x_start s))%Z.
Definition slice_height (s : slice2) : Z :=
  (Z.of_nat (y_stop s) - Z.of_nat (y_start s))%Z.

(** Decreasing keys. *)
Definition desc {A} (key : A → Z) (a b : A) : Prop := (key b ≤ key a)%Z.

(** The four keys read with [config[...]]. *)
Definition required_keys : list string :=
  ["ela_quality"; "threshold_multiplier"; "min_region_size";
   "enhancement_strength"].

(** ** Concrete inputs *)

(** An [h] x [w] image that is [hi] on the rectangle with top-left corner
    [(y0, x0)], height [bh] and width [bw], and [lo] elsewhere. *)
Definition block_image (h w y0 x0 bh bw : nat) (lo hi : Z) : array2 Z :=
  (λ y, (λ x,
     if (y0 <=? y) && (y <? y0 + bh) && (x0 <=? x) && (x <? x0 + bw)
     then hi else lo) <$> seq 0 w) <$> seq 0 h.

(** A 30 x 30 map with one bright 12 x 12 block, and its label image. *)
Definition block12 : array2 Z := block_image 30 30 3 4 12 12 0 200.
Definition block12_labels : array2 nat :=
  (ndimage_label (gt_mask block12 (Qc_of_Z 100))).1.

(** A 30 x 30 map with one bright 11 x 11 block (121 of 900 pixels, below
    the 15 % noise level). *)
Definition block11 : array2 Z := block_image 30 30 3 4 11 11 0 200.
Definition block11_labels : array2 nat :=
  (ndimage_label (gt_mask block11 (Qc_of_Z 100))).1.

(** A 100 x 120 map with 1156 isolated bright pixels (every third row and
    column of the left 100 columns) and one bright 11 x 11 block to their
    right: 1277 of 12000 pixels, below the 15 % noise level. *)
Definition speckled_block11 : array2 Z :=
  (λ y, (λ x,
     if ((y mod 3 =? 0) && (x mod 3 =? 0) && (x <? 100))
        || ((10 <=? y) && (y <? 21) && (105 <=? x) && (x <? 116))
     then 200%Z else 0%Z) <$> seq 0 120) <$> seq 0 100.

Definition speckled_labels : array2 nat :=
  (ndimage_label (gt_mask speckled_block11 (Qc_of_Z 100))).1.

(** A fixed-point square root (26 fractional bits), for running the
    feature extraction on concrete maps. *)
Definition sqrt_fixed (q : Qc) : Qc :=
  (Qc_of_Z (Z.sqrt (Qnum q * 2 ^ 52 / Z.pos (Qden q))) / Qc_of_Z (2 ^ 26))%Qc.

(** A stub classifier that always answers FAKE with probability 0.9, an
    identity scaler and a configuration without [feature_names]. *)
Definition stub_classifier : Classifier :=
  {| predict := λ _, 1%Z;
     predict_proba := λ _, [Qc_of_Z 1 / Qc_of_Z 10; Qc_of_Z 9 / Qc_of_Z 10]%Qc |}.

Definition stub_scaler : Scaler := {| transform := λ v, v |}.

Definition config_without_names : gmap string json :=
  <["ela_quality" := JInt 90]>
  (<["threshold_multiplier" := JFloat (Qc_of_Z 2)]>
  (<["min_region_size" := JInt 50]>
  (<["enhancement_strength" := JFloat (Qc_of_Z 3 / Qc_of_Z 2)%Qc]> ∅))).

Definition config_without_min_region : gmap string json :=
  <["ela_quality" := JInt 90]>
  (<["threshold_multiplier" := JFloat (Qc_of_Z 2)]> ∅).

Definition dir_without_names : artifact_dir :=
  {| MODEL_PATH := Holds stub_classifier;
     SCALER_PATH := Holds stub_scaler;
     CONFIG_PATH := Holds (JObject config_without_names) |}.

(** Membership in an explicit list. *)
Ltac in_list :=
  repeat first [apply list_elem_of_here | apply list_elem_of_further].

(** * Further functions of the repository *)

Local Set Warnings "-clear-no-such-hyp".

(** ** [to_signed_bigint] and [compute_phash] *)

Definition to_signed_bigint (value : Z) : Z :=
  if (2 ^ 63 <=? value)%Z then (value - 2 ^ 64)%Z else value.

(** [compute_phash]: [int(str(h), 16)], where the argument is [str(h)],
    the hexadecimal text of the perceptual hash [h] that imagehash
    computes. *)
Definition compute_phash (hash_text : string) : result Z := int16 hash_text.

(** ** [normalize_domain] *)

(** Strings as lists of characters. The model covers ASCII names: the
    case mapping of Python on other characters is not modelled. *)
Definition is_ascii (c : Ascii.ascii) : Prop := (Ascii.nat_of_ascii c < 128)%nat.

(** Character codes: "A" is 65, "Z" 90, "_" 95, "a" 97, "z" 122. *)
Definition code_between (lo hi : nat) (c : Ascii.ascii) : bool :=
  (lo <=? Ascii.nat_of_ascii c) && (Ascii.nat_of_ascii c <=? hi).

(** [c.lower()] on ASCII. *)
Definition lower_char (c : Ascii.ascii) : Ascii.ascii :=
  if code_between 65 90 c
  then Ascii.ascii_of_nat (Ascii.nat_of_ascii c + 32)
  else c.

(** The characters that [str.strip()] removes (ASCII): tab to carriage
    return, the separators 0x1c to 0x1f, and the blank. *)
Definition is_space (c : Ascii.ascii) : bool :=
  let n := Ascii.nat_of_ascii c in
  ((9 <=? n) && (n <=? 13)) || ((28 <=? n) && (n <=? 31)) || (n =? 32).

Fixpoint lstrip (l : list Ascii.ascii) : list Ascii.ascii :=
  match l with
  | c :: l' => if is_space c then lstrip l' else l
  | [] => []
  end.

(** [s.strip()] *)
Definition py_strip (l : list Ascii.ascii) : list Ascii.ascii :=
  reverse (lstrip (reverse (lstrip l))).

(** The characters that [re.sub(r"[^a-z_]", "", n)] keeps. *)
Definition domain_char (c : Ascii.ascii) : bool :=
  code_between 97 122 c || (Ascii.nat_of_ascii c =? 95).

(** [aliases.get(n, n)] *)
Definition domain_alias (n : string) : string :=
  if decide (n = "caraccident") then "car_accident"
  else if decide (n = "car_accidents") then "car_accident"
  else n.

Definition VALID_DOMAINS : list string := ["id"; "receipt"; "car_accident"].

Definition normalize_domain (name : string) : result string :=
  let n := py_strip (lower_char <$> String.list_ascii_of_string name) in
  let n := String.string_of_list_ascii (filter (λ c, domain_char c = true) n) in
  let n := domain_alias n in
  if decide (n ∈ VALID_DOMAINS) then Ok n else Raise ValueError.

(** The letters and underscores of a name, in lower case. *)
Definition domain_letters (name : string) : string :=
  String.string_of_list_ascii
    (filter (λ c, domain_char c = true)
       (lower_char <$> String.list_ascii_of_string name)).

(** Closing goals about membership of strings in explicit lists. *)
Ltac dom_mem_contra H :=
  repeat (apply elem_of_cons in H as [H|H]; [congruence|]);
  by apply not_elem_of_nil in H.

Ltac dom_last :=
  first
    [ done
    | solve [in_list]
    | match goal with
      | |- _ ∉ _ => let H := fresh in intros H; dom_mem_contra H
      end
    | match goal with
      | H : _ ∉ _ |- _ => exfalso; apply H; solve [in_list]
      end
    | match goal with
      | H : _ ∈ _ |- _ => dom_mem_contra H
      end
    | congruence ].

Ltac dom_close :=
  match goal with
  | |- _ ↔ _ => split; intros ?; dom_close
  | |- ∀ _, _ => intros ?; dom_close
  | _ => simplify_eq; dom_last
  end.

(** The case of a name whose letters are known. *)
Ltac dom_known :=
  match goal with
  | |- context [if ?c then ?a else ?b] =>
      let v := eval vm_compute in (if c then a else b) in
      change (if c then a else b) with v
  end;
  split_and!; dom_close.

(** Characters that [int(s, 16)] of Python tolerates besides hexadecimal
    digits: blanks around the number, a sign, an underscore between digits
    and the [x] of a [0x] prefix; [int16] rejects them, and they do not
    occur in a hex digest. Characters outside ASCII are counted among them
    (some of them are blanks). *)
Definition literal_extra (c : Ascii.ascii) : bool :=
  let n := Ascii.nat_of_ascii c in
  is_space c || (n =? 43) || (n =? 45) || (n =? 95) || (n =? 120)
    || (n =? 88) || (128 <=? n).

(** ** Notions for the further statements *)

(** [key] is the first of [keys] that the JSON object lacks. *)
Fixpoint first_missing (members : gmap string json) (keys : list string)
    : option string :=
  match keys with
  | [] => None
  | key :: keys' =>
      match members !! key with
      | None => Some key
      | Some _ => first_missing members keys'
      end
  end.

Definition is_object (j : json) : bool :=
  match j with JObject _ => true | _ => false end.

Definition unreadable {A} (f : file A) : bool :=
  match f with Unreadable => true | _ => false end.

(** A box with its corner in the first quadrant that passes the dimension
    filter [width > 10 and height > 10]. *)
Definition box_passes (b : box) : Prop :=
  let '(x, y, w, h) := b in (0 ≤ x ∧ 0 ≤ y ∧ 10 < w ∧ 10 < h)%Z.

(** The far corner [(x + w, y + h)] of a box, which
    [_draw_boxes_on_image] hands to [draw.rectangle], is at most
    [(xmax, ymax)]. *)
Definition box_within (ymax xmax : Z) (b : box) : Prop :=
  let '(x, y, w, h) := b in (x + w ≤ xmax ∧ y + h ≤ ymax)%Z.

(** An array with [h] rows of [w] entries each. *)
Definition rectangular {A} (h w : nat) (a : array2 A) : Prop :=
  length a = h ∧ Forall (λ row, length row = w) a.

(** A label image for the map [ela]: same shape, and every labelled pixel
    is above the threshold. *)
Definition labels_above (ela : array2 Z) (threshold : Qc)
    (labeled : array2 nat) : Prop :=
  shape labeled = shape ela ∧
  ∀ y x, label_at labeled y x ≠ 0 →
    ∃ v, lookup2 ela y x = Some v ∧ (threshold < Qc_of_Z v)%Qc.

(** A loop body that, on the items with the property [Q], leaves the
    accumulator alone or appends one region with the property [P]. *)
Definition appends_if {B} (Q : B → Prop) (P : box → Z → Qc → Prop)
    (f : regions → B → result regions) : Prop :=
  ∀ acc b acc', Q b → f acc b = Ok acc' →
    acc' = acc ∨ ∃ bx sz mn, acc' = push_region acc bx sz mn ∧ P bx sz mn.

(** Every region of the three lists has the property [P] (the lists are
    then index-aligned). *)
Definition all_regions (P : box → Z → Qc → Prop) (r : regions) : Prop :=
  Forall3 P (r_boxes r) (r_sizes r) (r_means r).

(** What holds of every region that [find_suspicious_regions] returns for
    a map with at most [ymax] rows of at most [xmax] pixels. *)
Definition region_ok (threshold : Qc) (min_area : Z) (ymax xmax : nat)
    (bx : box) (sz : Z) (mn : Qc) : Prop :=
  box_passes bx ∧ (min_area ≤ sz)%Z ∧ (threshold < mn)%Qc ∧
  box_within (Z.of_nat ymax) (Z.of_nat xmax) bx.

(** Every index of the array is below [(ymax, xmax)]. *)
Definition bounded {A} (ymax xmax : nat) (a : array2 A) : Prop :=
  ∀ y x v, lookup2 a y x = Some v → y < ymax ∧ x < xmax.

(** The bounding slices of a label lie inside the label image and contain
    a pixel that carries the label. *)
Definition slice_fits (lab : array2 nat) (ymax xmax : nat) (k : nat)
    (s : slice2) : Prop :=
  y_stop s ≤ ymax ∧ x_stop s ≤ xmax ∧
  ∃ y x, lookup2 lab y x = Some (S k) ∧
    y_start s ≤ y < y_stop s ∧ x_start s ≤ x < x_stop s.

(** The difference [next - prev] of two uint8 pixels as a uint8: an
    increase by [d] is [d], a decrease by [d] is [256 - d]. *)
Definition wrapped_step (prev next : Z) : Z :=
  if (prev <=? next)%Z then (next - prev)%Z else (256 - (prev - next))%Z.

(** A uint8 value. *)
Definition uint8 (v : Z) : Prop := (0 ≤ v ≤ 255)%Z.

(** * Properties *)

(** ** Arrays and labelling *)

Lemma lookup2_Some {A} (a : array2 A) y x v :
  lookup2 a y x = Some v ↔ ∃ row, a !! y = Some row ∧ row !! x = Some v.
Proof.
  unfold lookup2. destruct (a !! y) as [row|]; simpl.
  - split; [eauto | by intros (? & [= <-] & ?)].
  - split; [done | by intros (? & ? & ?)].
Qed.

Lemma elem_of_argwhere {A} (p : A → bool) (a : array2 A) y x :
  (y, x) ∈ argwhere p a ↔ ∃ v, lookup2 a y x = Some v ∧ p v = true.
Proof.
  unfold argwhere. rewrite list_elem_of_join. split.
  - intros (l & Hin & Hl).
    apply elem_of_lookup_imap in Hl as (y' & row & -> & Hrow).
    apply list_elem_of_omap in Hin as (o & Ho & Hid).
    apply elem_of_lookup_imap in Ho as (x' & v & -> & Hv).
    simpl in Hid. destruct (p v) eqn:Hp; [|done].
    injection Hid as <- <-. exists v. split; [|done].
    apply lookup2_Some; eauto.
  - intros (v & Hv & Hp). apply lookup2_Some in Hv as (row & Hrow & Hv).
    eexists. split; [|by eapply elem_of_lookup_imap_2].
    apply list_elem_of_omap. exists (Some (y, x)). split; [|done].
    apply elem_of_lookup_imap. exists x, v. by rewrite Hp.
Qed.

Lemma shape_lookup2 {A B} (a : array2 A) (b : array2 B) y x :
  shape a = shape b → is_Some (lookup2 a y x) → is_Some (lookup2 b y x).
Proof.
  intros Hs [v Hv]. apply lookup2_Some in Hv as (row & Hrow & Hv).
  assert (shape a !! y = Some (length row)) as Hl
    by (unfold shape; by rewrite list_lookup_fmap, Hrow).
  rewrite Hs in Hl. unfold shape in Hl. rewrite list_lookup_fmap in Hl.
  destruct (b !! y) as [row'|] eqn:Hrow'; [|done]. simpl in Hl.
  injection Hl as Hl.
  destruct (lookup_lt_is_Some_2 row' x) as [w Hw].
  { rewrite Hl. by eapply lookup_lt_Some. }
  exists w. apply lookup2_Some; eauto.
Qed.

Lemma shape_full_like {A B} (a : array2 A) (v : B) :
  shape (full_like a v) = shape a.
Proof.
  unfold shape, full_like. rewrite <-list_fmap_compose.
  apply list_fmap_ext. intros _ row _. simpl. by rewrite length_fmap.
Qed.

Lemma shape_set2 {A} (a : array2 A) y x c : shape (set2 a y x c) = shape a.
Proof.
  unfold shape, set2. apply list_eq. intros i.
  rewrite !list_lookup_fmap. destruct (decide (i = y)) as [->|Hne].
  - rewrite list_lookup_alter_eq. destruct (a !! y); simpl; [|done].
    by rewrite length_insert.
  - by rewrite list_lookup_alter_ne.
Qed.

Lemma lookup2_set2_eq {A} (a : array2 A) y x c :
  is_Some (lookup2 a y x) → lookup2 (set2 a y x c) y x = Some c.
Proof.
  intros [v Hv]. apply lookup2_Some in Hv as (row & Hrow & Hv).
  apply lookup2_Some. exists (<[x:=c]> row). split.
  - unfold set2. by rewrite list_lookup_alter_eq, Hrow.
  - apply list_lookup_insert_eq. by eapply lookup_lt_Some.
Qed.

Lemma lookup2_set2_ne {A} (a : array2 A) y x c y' x' :
  (y, x) ≠ (y', x') → lookup2 (set2 a y x c) y' x' = lookup2 a y' x'.
Proof.
  intros Hne. unfold lookup2, set2. destruct (decide (y = y')) as [->|Hy].
  - rewrite list_lookup_alter_eq. destruct (a !! y'); simpl; [|done].
    apply list_lookup_insert_ne. congruence.
  - by rewrite list_lookup_alter_ne.
Qed.

Lemma flood_cons m c fuel y x rest lab :
  flood m c (S fuel) ((y, x) :: rest) lab =
  if mask_at m y x && (label_at lab y x =? 0)
  then flood m c fuel (neighbours y x ++ rest) (set2 lab y x c)
  else flood m c fuel rest lab.
Proof. done. Qed.

Lemma shape_flood m c fuel work lab :
  shape (flood m c fuel work lab) = shape lab.
Proof.
  revert work lab. induction fuel as [|fuel IH]; intros work lab; [done|].
  simpl. destruct work as [|[y x] rest]; [done|].
  destruct (mask_at m y x && (label_at lab y x =? 0)).
  - by rewrite IH, shape_set2.
  - apply IH.
Qed.

(** A pixel that already carries a label keeps it during a flood fill. *)
Lemma flood_keeps m c fuel work lab y x :
  label_at lab y x ≠ 0 →
  label_at (flood m c fuel work lab) y x = label_at lab y x.
Proof.
  revert work lab. induction fuel as [|fuel IH]; intros work lab Hl; [done|].
  simpl. destruct work as [|[y0 x0] rest]; [done|].
  destruct (mask_at m y0 x0 && (label_at lab y0 x0 =? 0)) eqn:Hc.
  - apply andb_prop in Hc as [_ H0]. apply Nat.eqb_eq in H0.
    assert (label_at (set2 lab y0 x0 c) y x = label_at lab y x) as Hs.
    { unfold label_at. rewrite lookup2_set2_ne; [done|]. congruence. }
    rewrite IH; [done | by rewrite Hs].
  - by apply IH.
Qed.

Lemma label_step_inv m st p : label_inv m st → label_inv m (label_step m st p).
Proof.
  destruct st as [lab n], p as [y x]. intros [Hsh Hin]. simpl in *.
  destruct (mask_at m y x && (label_at lab y x =? 0)) eqn:Hc; [|done].
  apply andb_prop in Hc as [Hm H0]. apply Nat.eqb_eq in H0.
  split; simpl.
  - by rewrite shape_flood.
  - rewrite Nat.add_1_r, flood_cons, Hm, H0. simpl andb. cbv iota.
    assert (is_Some (lookup2 lab y x)) as Hsome.
    { apply (shape_lookup2 m); [done|]. unfold mask_at in Hm.
      destruct (lookup2 m y x); [eauto | done]. }
    intros i Hi. destruct (decide (i = S n)) as [->|Hne].
    + exists y, x. rewrite flood_keeps.
      * unfold label_at. by rewrite lookup2_set2_eq.
      * unfold label_at. by rewrite lookup2_set2_eq.
    + destruct (Hin i) as (y' & x' & Hl); [lia|].
      assert (label_at (set2 lab y x (S n)) y' x' = i) as Hs.
      { unfold label_at in *. rewrite lookup2_set2_ne; [done|].
        intros [= -> ->]. lia. }
      exists y', x'. rewrite flood_keeps; [done | lia].
Qed.

Lemma foldl_label_inv m ps st :
  label_inv m st → label_inv m (foldl (label_step m) st ps).
Proof.
  revert st. induction ps as [|p ps IH]; intros st Hst; [done|].
  simpl. by apply IH, label_step_inv.
Qed.

(** Every label [1 .. num_features] returned by [ndimage_label] is carried
    by at least one pixel. *)
Lemma ndimage_label_inhabited m lab n i :
  ndimage_label m = (lab, n) → 1 ≤ i ≤ n →
  argwhere (λ v, v =? i) lab ≠ [].
Proof.
  intros Hl Hi.
  assert (label_inv m (lab, n)) as [_ Hin].
  { rewrite <-Hl. apply foldl_label_inv. split; simpl.
    - apply shape_full_like.
    - lia. }
  destruct (Hin i Hi) as (y & x & Hyx). simpl in Hyx.
  assert ((y, x) ∈ argwhere (λ v, v =? i) lab) as Hel.
  { apply elem_of_argwhere. unfold label_at in Hyx.
    destruct (lookup2 lab y x) as [v|] eqn:Hv; simpl in Hyx; [|lia].
    exists v. split; [done|]. by apply Nat.eqb_eq. }
  intros Hnil. rewrite Hnil in Hel. by apply not_elem_of_nil in Hel.
Qed.

(** ** The coordinate loop returns *)

Lemma coord_step_Ok ela labeled min_area acc i :
  argwhere (λ v, v =? i) labeled ≠ [] →
  ∃ acc', coord_step ela labeled min_area acc i = Ok acc'.
Proof.
  intros Hne. unfold coord_step.
  destruct (_ <? min_area)%Z; [eauto|].
  destruct (argwhere _ labeled) as [|[y x] cs]; [done|]. simpl.
  destruct (_ && _); eauto.
Qed.

Lemma coord_loop_from_Ok ela labeled min_area labels acc :
  Forall (λ i, argwhere (λ v, v =? i) labeled ≠ []) labels →
  ∃ r, rfold (coord_step ela labeled min_area) acc labels = Ok r.
Proof.
  intros H. revert acc. induction H as [|i labels Hi _ IH]; intros acc.
  - simpl. eauto.
  - simpl. destruct (coord_step_Ok ela labeled min_area acc i Hi) as [a ->].
    simpl. apply IH.
Qed.

(** [find_suspicious_regions] never raises. *)
Lemma find_suspicious_regions_Ok ela threshold min_area :
  ∃ r, find_suspicious_regions ela threshold min_area = Ok r.
Proof.
  unfold find_suspicious_regions.
  destruct (count_true _ =? 0); [eauto|].
  destruct (ndimage_label _) as [lab n] eqn:Hl.
  destruct (n =? 0); [eauto|]. destruct (1000 <? n); [eauto|].
  apply coord_loop_from_Ok. apply Forall_forall. intros i Hi.
  apply elem_of_seq in Hi. eapply ndimage_label_inhabited; [done | lia].
Qed.

(** ** Loops that only append regions *)

Lemma rfold_app {A B} (f : A → B → result A) acc l1 l2 :
  rfold f acc (l1 ++ l2) = (acc' ← rfold f acc l1; rfold f acc' l2).
Proof.
  revert acc. induction l1 as [|b l1 IH]; intros acc; [done|].
  simpl. destruct (f acc b) as [a|e]; simpl; [apply IH | done].
Qed.

Lemma rfold_pure {A B} (f : A → B → A) acc l :
  rfold (λ a b, Ok (f a b)) acc l = Ok (foldl f acc l).
Proof. revert acc. induction l as [|b l IH]; intros acc; [done | apply IH]. Qed.

Lemma aligned_push acc bx sz mn : aligned acc → aligned (push_region acc bx sz mn).
Proof.
  destruct acc as [[bs ss] ms]. unfold aligned, r_boxes, r_sizes, r_means.
  simpl. rewrite !length_app. simpl. lia.
Qed.

Lemma push_lookup acc bx sz mn :
  aligned acc →
  r_boxes (push_region acc bx sz mn) !! length (r_boxes acc) = Some bx ∧
  r_sizes (push_region acc bx sz mn) !! length (r_boxes acc) = Some sz.
Proof.
  destruct acc as [[bs ss] ms]. unfold aligned, r_boxes, r_sizes, r_means.
  simpl. intros [Hs _]. split.
  - by rewrite lookup_app_r, Nat.sub_diag.
  - rewrite Hs. by rewrite lookup_app_r, Nat.sub_diag.
Qed.

Section AppendsOnly.
Context {B : Type} (f : regions → B → result regions).
Hypothesis Hf : appends_only f.

Lemma rfold_aligned l acc r :
  aligned acc → rfold f acc l = Ok r → aligned r.
Proof.
  revert acc. induction l as [|b l IH]; intros acc Ha Hr; simpl in Hr.
  - by injection Hr as <-.
  - destruct (f acc b) as [a|e] eqn:Hfb; simpl in Hr; [|done].
    apply (IH a); [|done].
    destruct (Hf _ _ _ Hfb) as [->|(bx & sz & mn & ->)];
      [done | by apply aligned_push].
Qed.

Lemma rfold_keeps l acc r k bx sz :
  rfold f acc l = Ok r →
  r_boxes acc !! k = Some bx → r_sizes acc !! k = Some sz →
  r_boxes r !! k = Some bx ∧ r_sizes r !! k = Some sz.
Proof.
  revert acc. induction l as [|b l IH]; intros acc Hr Hb Hs; simpl in Hr.
  - by injection Hr as <-.
  - destruct (f acc b) as [a|e] eqn:Hfb; simpl in Hr; [|done].
    destruct (Hf _ _ _ Hfb) as [->|(bx' & sz' & mn' & ->)];
      [by apply (IH acc)|].
    destruct acc as [[bs ss] ms]. unfold r_boxes, r_sizes in *.
    apply (IH _ Hr); simpl in *; by apply lookup_app_l_Some.
Qed.

(** When the body appends a region at an item of the list, the region is
    in the result of the loop, box and size at the same index. *)
Lemma rfold_appended l1 b l2 r bx sz mn :
  (∀ acc, f acc b = Ok (push_region acc bx sz mn)) →
  rfold f no_regions (l1 ++ b :: l2) = Ok r →
  ∃ k, r_boxes r !! k = Some bx ∧ r_sizes r !! k = Some sz.
Proof.
  intros Hb Hr. rewrite rfold_app in Hr.
  destruct (rfold f no_regions l1) as [a|e] eqn:H1; simpl in Hr; [|done].
  rewrite Hb in Hr. simpl in Hr.
  assert (aligned a) as Ha.
  { eapply (rfold_aligned l1 no_regions); [|done]. by split. }
  exists (length (r_boxes a)).
  destruct (push_lookup a bx sz mn Ha).
  by eapply rfold_keeps.
Qed.

(** When the body skips an item, the loop runs as if the item were not
    in the list. *)
Lemma rfold_skipped l k b :
  l !! k = Some b → (∀ acc, f acc b = Ok acc) →
  rfold f no_regions l = rfold f no_regions (delete k l).
Proof.
  intros Hk Hb. rewrite <-(take_drop_middle l k b Hk) at 1.
  rewrite delete_take_drop, !rfold_app.
  destruct (rfold f no_regions (take k l)); simpl; [|done].
  by rewrite Hb.
Qed.
End AppendsOnly.

Lemma coord_step_appends_only ela labeled min_area :
  appends_only (coord_step ela labeled min_area).
Proof.
  intros acc i acc'. unfold coord_step.
  destruct (_ <? min_area)%Z; [intros [= <-]; by left|].
  destruct (axis_min _) as [[y0 x0]|]; simpl; [|done].
  destruct (axis_max _) as [[y1 x1]|]; simpl; [|done].
  destruct (_ && _); intros [= <-]; [right; eauto | by left].
Qed.

Lemma slice_step_appends_only ela labeled min_area :
  appends_only (λ acc it, Ok (slice_step ela labeled min_area acc it)).
Proof.
  intros acc [i [s|]] acc'; unfold slice_step; [|intros [= <-]; by left].
  destruct (_ <? min_area)%Z; [intros [= <-]; by left|].
  destruct (_ && _); intros [= <-]; [right; eauto | by left].
Qed.

(** ** The area filter (both strategies) *)

Lemma enumerate_lookup {A} (start : nat) (l : list A) k v :
  l !! k = Some v → enumerate start l !! k = Some (start + k, v).
Proof. intros H. unfold enumerate. by rewrite list_lookup_imap, H. Qed.

Lemma slice_step_keep ela labeled min_area acc i s :
  (min_area ≤ slice_region_size labeled i s)%Z →
  (10 < slice_width s)%Z → (10 < slice_height s)%Z →
  slice_step ela labeled min_area acc (i, Some s) =
  push_region acc
    (Z.of_nat (x_start s), Z.of_nat (y_start s), slice_width s, slice_height s)
    (slice_region_size labeled i s)
    (np_mean_Z (select (crop ela s) (eq_label i (crop labeled s)))).
Proof.
  unfold slice_region_size, slice_width, slice_height, slice_step.
  intros Ha Hw Hh.
  destruct (Z.ltb_spec (Z.of_nat (count_true (eq_label i (crop labeled s))))
              min_area); [lia|].
  destruct (Z.ltb_spec 10 (Z.of_nat (x_stop s) - Z.of_nat (x_start s)));
    [|lia].
  destruct (Z.ltb_spec 10 (Z.of_nat (y_stop s) - Z.of_nat (y_start s)));
    [done | lia].
Qed.

Lemma slice_step_small ela labeled min_area acc i s :
  (slice_region_size labeled i s < min_area)%Z →
  slice_step ela labeled min_area acc (i, Some s) = acc.
Proof.
  unfold slice_region_size, slice_step. intros Ha.
  by destruct (Z.ltb_spec (Z.of_nat (count_true (eq_label i (crop labeled s))))
                 min_area); [|lia].
Qed.

Lemma coord_step_keep ela labeled min_area acc i y0 x0 y1 x1 :
  (min_area ≤ coord_region_size labeled i)%Z →
  axis_min (argwhere (λ v, v =? i) labeled) = Ok (y0, x0) →
  axis_max (argwhere (λ v, v =? i) labeled) = Ok (y1, x1) →
  (10 < x1 - x0)%Z → (10 < y1 - y0)%Z →
  coord_step ela labeled min_area acc i =
  Ok (push_region acc (x0, y0, x1 - x0, y1 - y0)%Z
        (coord_region_size labeled i)
        (np_mean_Z (select ela (eq_label i labeled)))).
Proof.
  unfold coord_region_size, coord_step. intros Ha -> -> Hw Hh. simpl.
  destruct (Z.ltb_spec (Z.of_nat (length (argwhere (λ v, v =? i) labeled)))
              min_area); [lia|].
  destruct (Z.ltb_spec 10 (x1 - x0)); [|lia].
  destruct (Z.ltb_spec 10 (y1 - y0)); [done | lia].
Qed.

Lemma coord_step_small ela labeled min_area acc i :
  (coord_region_size labeled i < min_area)%Z →
  coord_step ela labeled min_area acc i = Ok acc.
Proof.
  unfold coord_region_size, coord_step. intros Ha.
  by destruct (Z.ltb_spec (Z.of_nat (length (argwhere (λ v, v =? i) labeled)))
                 min_area); [|lia].
Qed.

Lemma seq_lookup_pred n i : 1 ≤ i ≤ n → seq 1 n !! (i - 1) = Some i.
Proof. intros Hi. rewrite lookup_seq_lt by lia. f_equal. lia. Qed.



(** ** The dimension filter and the two strategies *)

(** The slice strategy measures a component by the exclusive stops of its
    bounding slices: width and height are the pixel extents. *)
Lemma slice_step_narrow ela labeled min_area acc i s :
  (slice_width s ≤ 10)%Z ∨ (slice_height s ≤ 10)%Z →
  slice_step ela labeled min_area acc (i, Some s) = acc.
Proof.
  unfold slice_width, slice_height, slice_step. intros Hn.
  destruct (_ <? min_area)%Z; [done|].
  destruct (Z.ltb_spec 10 (Z.of_nat (x_stop s) - Z.of_nat (x_start s)));
    destruct (Z.ltb_spec 10 (Z.of_nat (y_stop s) - Z.of_nat (y_start s)));
    simpl; (done || lia).
Qed.

(** The coordinate strategy measures a component by the difference of its
    largest and smallest index: one less than the pixel extent. *)
Lemma coord_step_narrow ela labeled min_area acc i y0 x0 y1 x1 :
  axis_min (argwhere (λ v, v =? i) labeled) = Ok (y0, x0) →
  axis_max (argwhere (λ v, v =? i) labeled) = Ok (y1, x1) →
  (x1 - x0 ≤ 10)%Z ∨ (y1 - y0 ≤ 10)%Z →
  coord_step ela labeled min_area acc i = Ok acc.
Proof.
  unfold coord_step. intros -> -> Hn. simpl.
  destruct (_ <? min_area)%Z; [done|].
  destruct (Z.ltb_spec 10 (x1 - x0)); destruct (Z.ltb_spec 10 (y1 - y0));
    simpl; (done || lia).
Qed.

(** C1. The two strategies disagree on one and the same label image.
    [speckled_block11] has 1157 components, so [find_suspicious_regions]
    takes the bounding-slice strategy, which keeps the 11 x 11 block
    (component 137) with width and height 11; the loop body of the
    coordinate-enumeration strategy, run on the same label image for the
    same component, measures 10 and skips it. On the label image of
    [block12], with its single 12 x 12 component, both strategies keep the
    region, with width and height 12 (stop minus start) against 11 (largest
    minus smallest index); corner and pixel count agree. *)
Theorem strategies_differ :
  (ndimage_label (gt_mask speckled_block11 (Qc_of_Z 100))).2 = 1157 ∧
  (∃ r, find_suspicious_regions speckled_block11 (Qc_of_Z 100) 50 = Ok r ∧
        r_boxes r = [(105, 10, 11, 11)%Z] ∧ r_sizes r = [121%Z]) ∧
  find_objects speckled_labels !! 136 = Some (Some (Slice2 10 21 105 116)) ∧
  coord_region_size speckled_labels 137 = 121%Z ∧
  coord_step speckled_block11 speckled_labels 50 no_regions 137
    = Ok no_regions ∧
  find_objects block12_labels = [Some (Slice2 3 15 4 16)] ∧
  r_boxes (extract_by_slices block12 block12_labels 50) = [(4, 3, 12, 12)%Z] ∧
  r_sizes (extract_by_slices block12 block12_labels 50) = [144%Z] ∧
  ∃ r, extract_by_coords block12 block12_labels 1 50 = Ok r ∧
       r_boxes r = [(4, 3, 11, 11)%Z] ∧ r_sizes r = [144%Z].
Proof.
  split; [vm_compute; reflexivity|].
  split; [eexists; split; [vm_compute; reflexivity | by split]|].
  split; [vm_compute; reflexivity|].
  split; [vm_compute; reflexivity|].
  split; [vm_compute; reflexivity|].
  split; [by vm_compute|]. split; [by vm_compute|]. split; [by vm_compute|].
  eexists. split; [vm_compute; reflexivity|]. by split.
Qed.

(** C2. An 11 x 11 component (121 pixels, above the minimum area 50) is
    dropped by [find_suspicious_regions], which takes the coordinate
    strategy for a single component, although its bounding box is 11
    pixels wide and tall; the slice strategy keeps the same component. *)
Theorem dimension_filter_drops_11_wide :
  ndimage_label (gt_mask block11 (Qc_of_Z 100)) = (block11_labels, 1) ∧
  find_objects block11_labels = [Some (Slice2 3 14 4 15)] ∧
  coord_region_size block11_labels 1 = 121%Z ∧
  find_suspicious_regions block11 (Qc_of_Z 100) 50 = Ok no_regions ∧
  r_boxes (extract_by_slices block11 block11_labels 50) = [(4, 3, 11, 11)%Z].
Proof. repeat split; by vm_compute. Qed.


(** ** Feature extraction *)

Lemma array_size_ravel {A} (a : array2 A) : array_size a = length (ravel a).
Proof. unfold array_size, ravel. by rewrite length_join. Qed.

Lemma ravel_fmap {A B} (f : A → B) (a : array2 A) :
  ravel ((λ row : list A, f <$> row) <$> a) = f <$> ravel a.
Proof.
  unfold ravel. induction a as [|row a IH]; [done|].
  cbn [fmap list_fmap mjoin list_join] in *. rewrite fmap_app. f_equal. apply IH.
Qed.

Lemma Qc_of_nat_ne_0 (n : nat) : n ≠ 0 → Qc_of_Z (Z.of_nat n) ≠ 0%Qc.
Proof.
  intros Hn H0. rewrite <-Z2Qc_inj_0 in H0. apply Z2Qc_inj in H0. lia.
Qed.

Lemma length_ne_0 {A} (l : list A) : l ≠ [] → length l ≠ 0.
Proof. by destruct l. Qed.

Lemma np_max_Ok l : l ≠ [] → ∃ v, np_max l = Ok v.
Proof. destruct l; [done | simpl; eauto]. Qed.

Lemma np_min_Ok l : l ≠ [] → ∃ v, np_min l = Ok v.
Proof. destruct l; [done | simpl; eauto]. Qed.

Lemma length_np_histogram l : length (np_histogram l) = 10.
Proof. unfold np_histogram. by rewrite length_fmap, length_seq. Qed.

Lemma py_div_Ok a b : b ≠ 0%Qc → py_div a b = Ok (a / b)%Qc.
Proof. intros Hb. unfold py_div. by destruct (decide (b = 0%Qc)). Qed.

(** The aggregates are always produced, five of them, the first being the
    number of boxes. *)
Lemma region_aggregates_Ok np_sqrt (r : regions) :
  ∃ avg mx ai sd,
    region_aggregates np_sqrt r =
    Ok [Qc_of_Z (Z.of_nat (length (r_boxes r))); avg; mx; ai; sd].
Proof.
  destruct r as [[boxes sizes] means]. unfold region_aggregates, r_boxes.
  destruct sizes as [|s sizes]; simpl; eauto.
Qed.

(** What [extract_features] returns on a map with at least one pixel. *)
Lemma extract_features_Ok (np_sqrt : Qc → Qc) (threshold_multiplier : Qc)
    (min_region_size : Z) (ela_array : array2 Z) :
  ravel ela_array ≠ [] →
  let flat := ravel ela_array in
  let size := Qc_of_Z (Z.of_nat (array_size ela_array)) in
  let threshold :=
    (np_mean_Z flat + threshold_multiplier * np_std np_sqrt flat)%Qc in
  let suspicious_pixels :=
    Z.of_nat (count_true (gt_mask ela_array threshold)) in
  let suspicious_percentage :=
    (Qc_of_Z suspicious_pixels / size * Qc_of_Z 100)%Qc in
  let hist_norm := (λ c, Qc_of_Z c / size)%Qc <$> np_histogram flat in
  ∃ max_v r avg mx ai sd,
    np_max flat = Ok max_v ∧
    find_suspicious_regions ela_array threshold min_region_size = Ok r ∧
    region_aggregates np_sqrt r =
      Ok [Qc_of_Z (Z.of_nat (length (r_boxes r))); avg; mx; ai; sd] ∧
    extract_features np_sqrt threshold_multiplier min_region_size ela_array
    = Ok {|
        features :=
          [np_mean_Z flat; Qc_of_Z max_v; np_std np_sqrt flat;
           np_median flat; threshold; Qc_of_Z suspicious_pixels;
           suspicious_percentage]
          ++ [Qc_of_Z (Z.of_nat (length (r_boxes r))); avg; mx; ai; sd]
          ++ hist_norm
          ++ [percentile_at flat 25; percentile_at flat 50;
              percentile_at flat 75; percentile_at flat 90;
              percentile_at flat 95]
          ++ [Qc_of_Z (Zsum (ravel (np_diff0 ela_array)));
              Qc_of_Z (Zsum (ravel (np_diff1 ela_array)))];
        ex_ela_array := ela_array;
        ex_threshold := threshold;
        ex_boxes := r_boxes r;
        feature_dict := {|
          fs_mean_error := np_mean_Z flat;
          fs_max_error := Qc_of_Z max_v;
          fs_std_error := np_std np_sqrt flat;
          fs_median_error := np_median flat;
          fs_threshold := threshold;
          fs_suspicious_pixels := suspicious_pixels;
          fs_suspicious_percentage := suspicious_percentage;
          fs_num_regions := length (r_boxes r)
        |}
      |}.
Proof.
  intros Hne flat size threshold suspicious_pixels suspicious_percentage
    hist_norm.
  destruct (np_max_Ok flat Hne) as [max_v Hmax].
  destruct (find_suspicious_regions_Ok ela_array threshold min_region_size)
    as [r Hr].
  destruct (region_aggregates_Ok np_sqrt r) as (avg & mx & ai & sd & Hagg).
  assert (size ≠ 0%Qc) as Hsize.
  { apply Qc_of_nat_ne_0. rewrite array_size_ravel. by apply length_ne_0. }
  exists max_v, r, avg, mx, ai, sd.
  split; [done|]. split; [done|]. split; [done|].
  unfold extract_features. fold flat. rewrite Hmax.
  cbn [mbind result_bind]. fold size. fold threshold.
  fold suspicious_pixels. rewrite (py_div_Ok _ _ Hsize).
  cbn [mbind result_bind]. rewrite Hr. cbn [mbind result_bind].
  rewrite Hagg. reflexivity.
Qed.

(** The five region aggregates in the order of the feature vector: the
    number of regions, then the mean and the largest of the region sizes,
    the mean of the region intensities and the standard deviation of the
    region sizes, each of the four replaced by 0 when its list is empty. *)
Lemma region_aggregates_values np_sqrt (r : regions) :
  region_aggregates np_sqrt r =
  Ok [Qc_of_Z (Z.of_nat (length (r_boxes r)));
      match r_sizes r with [] => 0%Qc | _ => np_mean_Z (r_sizes r) end;
      match r_sizes r with
      | [] => 0%Qc
      | v :: l => Qc_of_Z (foldr Z.max v l)
      end;
      match r_means r with [] => 0%Qc | _ => np_mean_Q (r_means r) end;
      match r_sizes r with
      | [] => 0%Qc
      | _ => np_std np_sqrt (r_sizes r)
      end].
Proof.
  destruct r as [[boxes sizes] means].
  unfold region_aggregates, r_boxes, r_sizes, r_means. cbn [fst snd].
  destruct sizes as [|s sizes]; reflexivity.
Qed.


(** The regions of [block12] at the threshold that [extract_features]
    computes for it with the multiplier 2: the bright block, 16 % of the
    map, is opened, labelled as one component and measured by the
    coordinate strategy. *)
Lemma block12_regions :
  ∃ r,
    find_suspicious_regions block12
      (np_mean_Z (ravel block12)
       + Qc_of_Z 2 * np_std sqrt_fixed (ravel block12))%Qc 50 = Ok r ∧
    r_boxes r = [(4, 3, 11, 11)%Z] ∧
    r_sizes r = [144%Z] ∧
    r_means r = [Qc_of_Z 200].
Proof.
  destruct (find_suspicious_regions block12 _ 50) as [r|e] eqn:Hr.
  - exists r. split; [reflexivity|].
    vm_compute in Hr. injection Hr as <-.
    split; [reflexivity|]. split; [reflexivity|].
    unfold r_means. cbn [snd]. f_equal. apply Qc_is_canon. reflexivity.
  - vm_compute in Hr. discriminate Hr.
Qed.


(** ** Uniform maps *)

Lemma Zsum_const c l : Forall (.= c) l → Zsum l = (Z.of_nat (length l) * c)%Z.
Proof.
  induction 1 as [|v l -> _ IH]; [done|].
  simpl Zsum. rewrite IH. simpl length. lia.
Qed.

Lemma Qsum_zero l : Forall (.= 0%Qc) l → Qsum l = 0%Qc.
Proof.
  induction 1 as [|v l -> _ IH]; [done|].
  simpl. rewrite IH. apply Qcplus_0_l.
Qed.

Lemma np_mean_Z_const c l :
  l ≠ [] → Forall (.= c) l → np_mean_Z l = Qc_of_Z c.
Proof.
  intros Hne Hc. unfold np_mean_Z.
  rewrite (Zsum_const c l Hc), Z.mul_comm, Z2Qc_inj_mul.
  apply Qcdiv_mult_l, Qc_of_nat_ne_0. by apply length_ne_0.
Qed.

Lemma np_var_const c l : l ≠ [] → Forall (.= c) l → np_var l = 0%Qc.
Proof.
  intros Hne Hc. unfold np_var, np_mean_Q.
  rewrite (np_mean_Z_const c l Hne Hc), Qsum_zero.
  - unfold Qcdiv. apply Qcmult_0_l.
  - apply Forall_fmap. eapply Forall_impl; [exact Hc|].
    intros v ->. simpl. ring.
Qed.

Lemma count_true_gt_mask_none ela threshold :
  Forall (λ v, ¬ (threshold < Qc_of_Z v)%Qc) (ravel ela) →
  count_true (gt_mask ela threshold) = 0.
Proof.
  intros H. unfold count_true, gt_mask. rewrite ravel_fmap.
  induction H as [|v l Hv _ IH]; [done|].
  rewrite fmap_cons, filter_cons_False; [exact IH|].
  by rewrite bool_decide_eq_true.
Qed.

(** C5. On a map whose pixels all equal [c] (zero variance) the adaptive
    threshold is the mean of the map, namely [c], and no pixel is strictly
    above it: the suspicious-pixel count is 0 (so it is 0 or the whole map,
    never a part of it), whatever the multiplier. The only property of the
    square root that matters is that it maps 0 to 0. *)
Theorem uniform_map_threshold (np_sqrt : Qc → Qc) (threshold_multiplier : Qc)
    (min_region_size : Z) (ela_array : array2 Z) (c : Z) :
  np_sqrt 0%Qc = 0%Qc →
  ravel ela_array ≠ [] →
  Forall (.= c) (ravel ela_array) →
  ∃ out,
    extract_features np_sqrt threshold_multiplier min_region_size ela_array
      = Ok out ∧
    fs_std_error (feature_dict out) = 0%Qc ∧
    ex_threshold out = fs_mean_error (feature_dict out) ∧
    ex_threshold out = Qc_of_Z c ∧
    fs_suspicious_pixels (feature_dict out) =
      Z.of_nat (count_true (gt_mask ela_array (ex_threshold out))) ∧
    fs_suspicious_pixels (feature_dict out) = 0%Z ∧
    (fs_suspicious_pixels (feature_dict out) = 0%Z ∨
     fs_suspicious_pixels (feature_dict out) =
       Z.of_nat (array_size ela_array)).
Proof.
  intros Hsqrt Hne Hc.
  destruct (extract_features_Ok np_sqrt threshold_multiplier min_region_size
              ela_array Hne)
    as (max_v & r & avg & mx & ai & sd & Hmax & Hr & Hagg & Hout).
  eexists. split; [exact Hout|].
  cbn [feature_dict ex_threshold fs_std_error fs_mean_error
       fs_suspicious_pixels].
  assert (np_std np_sqrt (ravel ela_array) = 0%Qc) as Hstd.
  { unfold np_std. by rewrite (np_var_const c _ Hne Hc). }
  assert ((np_mean_Z (ravel ela_array)
           + threshold_multiplier * np_std np_sqrt (ravel ela_array))%Qc
          = Qc_of_Z c) as Hthr.
  { rewrite Hstd, (np_mean_Z_const c _ Hne Hc). ring. }
  rewrite Hthr, Hstd.
  assert (count_true (gt_mask ela_array (Qc_of_Z c)) = 0) as Hcnt.
  { apply count_true_gt_mask_none. eapply Forall_impl; [exact Hc|].
    intros v -> Hlt. by apply Qclt_not_eq in Hlt. }
  rewrite Hcnt. repeat split; try done.
  - by rewrite (np_mean_Z_const c _ Hne Hc).
  - by left.
Qed.

Lemma uniform_map_threshold_witness :
  ∃ out,
    extract_features sqrt_fixed (Qc_of_Z 2) 50 [[7; 7; 7]; [7; 7; 7]]%Z
      = Ok out ∧
    ex_threshold out = Qc_of_Z 7 ∧
    fs_suspicious_pixels (feature_dict out) = 0%Z.
Proof.
  destruct (uniform_map_threshold sqrt_fixed (Qc_of_Z 2) 50
              [[7; 7; 7]; [7; 7; 7]]%Z 7)
    as (out & Hout & _ & _ & Hthr & _ & Hcnt & _).
  - apply Qc_is_canon. reflexivity.
  - discriminate.
  - repeat constructor.
  - exists out. split; [exact Hout|]. split; [exact Hthr | exact Hcnt].
Defined.

(** ** Degenerate inputs *)

Lemma foldr_max_ge v0 l x : x ∈ v0 :: l → (x ≤ foldr Z.max v0 l)%Z.
Proof.
  induction l as [|w l IH]; simpl.
  - intros ->%list_elem_of_singleton. lia.
  - rewrite !elem_of_cons. intros [->|[->|Hx]].
    + assert (v0 ≤ foldr Z.max v0 l)%Z by (apply IH; left). lia.
    + lia.
    + assert (x ≤ foldr Z.max v0 l)%Z by (apply IH; by right). lia.
Qed.

Lemma foldr_min_le v0 l x : x ∈ v0 :: l → (foldr Z.min v0 l ≤ x)%Z.
Proof.
  induction l as [|w l IH]; simpl.
  - intros ->%list_elem_of_singleton. lia.
  - rewrite !elem_of_cons. intros [->|[->|Hx]].
    + assert (foldr Z.min v0 l ≤ v0)%Z by (apply IH; left). lia.
    + lia.
    + assert (foldr Z.min v0 l ≤ x)%Z by (apply IH; by right). lia.
Qed.

Lemma zero_range_const l hi lo :
  np_max l = Ok hi → np_min l = Ok lo → hi = lo → Forall (.= lo) l.
Proof.
  destruct l as [|v0 l]; [done|]. simpl. intros [= <-] [= <-] Heq.
  apply Forall_forall. intros x Hx.
  pose proof (foldr_max_ge v0 l x Hx). pose proof (foldr_min_le v0 l x Hx).
  lia.
Qed.

Lemma Forall_ravel {A} (P : A → Prop) (a : array2 A) :
  Forall P (ravel a) → Forall (Forall P) a.
Proof.
  unfold ravel. induction a as [|row a IH]; [constructor|].
  cbn [mjoin list_join]. rewrite Forall_app. intros [Hrow Ha].
  constructor; [done | by apply IH].
Qed.

(** C6. Degenerate inputs give empty or zero results, not errors:
    [find_suspicious_regions] returns three empty lists when no pixel is
    above the threshold and when labelling finds no component; the five
    region aggregates of the empty region list are all zero; and on a map
    of zero range the heat map normalisation divides by 1 and yields the
    zero map. *)
Theorem degenerate_inputs_are_valid :
  (∀ ela threshold min_area,
     count_true (gt_mask ela threshold) = 0 →
     find_suspicious_regions ela threshold min_area = Ok no_regions)
  ∧ (∀ ela threshold min_area,
     let mask := gt_mask ela threshold in
     let opened :=
       if noisy (count_true mask) (array_size ela)
       then binary_opening mask else mask in
     (ndimage_label opened).2 = 0 →
     find_suspicious_regions ela threshold min_area = Ok no_regions)
  ∧ (∀ np_sqrt,
     region_aggregates np_sqrt no_regions
     = Ok [0%Qc; 0%Qc; 0%Qc; 0%Qc; 0%Qc])
  ∧ (∀ ela hi lo,
     np_max (ravel ela) = Ok hi → np_min (ravel ela) = Ok lo → hi = lo →
     guarded_ptp (hi - lo) = 1%Z ∧
     heatmap_normalized ela = Ok (full_like ela 0%Qc)).
Proof.
  split; [|split; [|split]].
  - intros ela threshold min_area H0. unfold find_suspicious_regions.
    by rewrite H0.
  - intros ela threshold min_area mask opened Hn.
    unfold find_suspicious_regions. fold mask.
    destruct (count_true mask =? 0); [done|]. fold opened.
    destruct (ndimage_label opened) as [lab n]. simpl in Hn. by subst n.
  - intros np_sqrt. unfold region_aggregates, no_regions.
    cbn [length mbind result_bind]. change (Z.of_nat 0) with 0%Z.
    by rewrite Z2Qc_inj_0.
  - intros ela hi lo Hmax Hmin Heq.
    assert (guarded_ptp (hi - lo) = 1%Z) as Hg
      by (subst hi; by rewrite Z.sub_diag).
    split; [done|].
    unfold heatmap_normalized. rewrite Hmax, Hmin. simpl. rewrite Hg.
    f_equal. unfold full_like.
    apply Forall_fmap_ext, Forall_forall. intros row Hrow.
    apply Forall_fmap_ext, Forall_forall. intros v Hv.
    assert (v = lo) as ->.
    { pose proof (Forall_ravel _ _ (zero_range_const _ _ _ Hmax Hmin Heq))
        as Hall.
      rewrite Forall_forall in Hall. specialize (Hall row Hrow).
      rewrite Forall_forall in Hall. by apply Hall. }
    rewrite Z.sub_diag, Z2Qc_inj_0. unfold Qcdiv. apply Qcmult_0_l.
Qed.

Lemma degenerate_inputs_are_valid_witness :
  find_suspicious_regions [[7; 7; 7]; [7; 7; 7]]%Z (Qc_of_Z 7) 50
    = Ok no_regions
  ∧ find_suspicious_regions [[9; 0; 0]; [0; 0; 9]; [0; 9; 0]]%Z (Qc_of_Z 7) 50
    = Ok no_regions
  ∧ (guarded_ptp (7 - 7) = 1%Z ∧
     heatmap_normalized [[7; 7; 7]; [7; 7; 7]]%Z
     = Ok (full_like [[7; 7; 7]; [7; 7; 7]]%Z 0%Qc)).
Proof.
  destruct degenerate_inputs_are_valid as (H1 & H2 & _ & H4).
  split; [|split].
  - apply H1. vm_compute. reflexivity.
  - apply H2. vm_compute. reflexivity.
  - apply (H4 _ 7%Z 7%Z); reflexivity.
Defined.

(** ** The stable descending sort and the top boxes *)

Section SortedDesc.
Context {A : Type} (key : A → Z).

Lemma sorted_desc_cons x l :
  sorted_desc key (x :: l) = insert_desc key x (sorted_desc key l).
Proof. done. Qed.

Lemma insert_desc_Permutation x l : insert_desc key x l ≡ₚ x :: l.
Proof.
  induction l as [|y l IH]; simpl; [done|].
  destruct (key x <? key y)%Z; [|done].
  by rewrite IH, Permutation_swap.
Qed.

Lemma sorted_desc_Permutation l : sorted_desc key l ≡ₚ l.
Proof.
  induction l as [|x l IH]; simpl; [done|].
  by rewrite insert_desc_Permutation, IH.
Qed.

Lemma insert_desc_sorted x l :
  StronglySorted (desc key) l → StronglySorted (desc key) (insert_desc key x l).
Proof.
  induction 1 as [|y l Hl IH Hy]; simpl.
  - repeat constructor.
  - destruct (Z.ltb_spec (key x) (key y)).
    + constructor; [done|].
      rewrite insert_desc_Permutation. constructor; [|done].
      unfold desc. lia.
    + constructor; [by constructor|].
      constructor; [done|].
      eapply Forall_impl; [exact Hy|]. unfold desc. intros z Hz. lia.
Qed.

Lemma sorted_desc_sorted l : StronglySorted (desc key) (sorted_desc key l).
Proof.
  induction l as [|x l IH]; simpl; [constructor|].
  by apply insert_desc_sorted.
Qed.

(** Elements with one and the same key keep their relative order. *)
Lemma insert_desc_stable a x l :
  filter (λ y, key y = a) (insert_desc key x l)
  = filter (λ y, key y = a) (x :: l).
Proof.
  induction l as [|y l IH]; simpl; [done|].
  destruct (Z.ltb_spec (key x) (key y)); [|done].
  rewrite (filter_cons _ y), IH, !(filter_cons _ x), !(filter_cons _ y).
  repeat case_decide; (done || lia).
Qed.

Lemma sorted_desc_stable a l :
  filter (λ y, key y = a) (sorted_desc key l) = filter (λ y, key y = a) l.
Proof.
  induction l as [|x l IH]; simpl; [done|].
  by rewrite insert_desc_stable, !(filter_cons _ x), IH.
Qed.

(** Sorting the list paired with its keys is sorting the list. *)
Lemma insert_desc_paired x l :
  insert_desc snd (x, key x) ((λ y, (y, key y)) <$> l)
  = (λ y, (y, key y)) <$> insert_desc key x l.
Proof.
  induction l as [|y l IH]; simpl; [done|].
  destruct (key x <? key y)%Z; simpl; [f_equal; apply IH | done].
Qed.

Lemma sorted_desc_paired l :
  fst <$> sorted_desc snd (zip l (key <$> l)) = sorted_desc key l.
Proof.
  assert (zip l (key <$> l) = (λ y, (y, key y)) <$> l) as ->.
  { induction l as [|x l IH]; simpl; [done | f_equal; apply IH]. }
  assert (sorted_desc snd ((λ y, (y, key y)) <$> l)
          = (λ y, (y, key y)) <$> sorted_desc key l) as ->.
  { induction l as [|x l IH]; [done|].
    change (insert_desc snd (x, key x)
              (sorted_desc snd ((λ y, (y, key y)) <$> l))
            = (λ y, (y, key y)) <$> insert_desc key x (sorted_desc key l)).
    rewrite IH. apply insert_desc_paired. }
  rewrite <-list_fmap_compose. apply list_fmap_id.
Qed.
End SortedDesc.

(** C9 (amended). The boxes drawn are the first [TOP_N_BOXES] = 10 entries
    of the detected boxes sorted by decreasing area [width * height]; the
    sort is stable, so boxes of equal area keep their detection order; at
    most 10 are selected, every box left out is no larger than any selected
    one, and the selection is a sub-multiset of the detected boxes (a
    reordering of a subsequence, not a subsequence). *)
Theorem top_boxes_are_largest_stable (boxes : list box) :
  let ranked := sorted_desc box_area boxes in
  select_top_boxes boxes = take TOP_N_BOXES ranked ∧
  ranked ≡ₚ boxes ∧
  StronglySorted (desc box_area) ranked ∧
  (∀ a, filter (λ b, box_area b = a) ranked
        = filter (λ b, box_area b = a) boxes) ∧
  length (select_top_boxes boxes) = Nat.min 10 (length boxes) ∧
  (∀ t b, t ∈ select_top_boxes boxes → b ∈ drop TOP_N_BOXES ranked →
          (box_area b ≤ box_area t)%Z) ∧
  select_top_boxes boxes ⊆+ boxes.
Proof.
  intros ranked.
  assert (select_top_boxes boxes = take TOP_N_BOXES ranked) as Htop.
  { unfold select_top_boxes. rewrite fmap_take.
    by rewrite (sorted_desc_paired box_area). }
  pose proof (sorted_desc_Permutation box_area boxes) as Hperm.
  pose proof (sorted_desc_sorted box_area boxes) as Hsorted.
  fold ranked in Hperm, Hsorted.
  split; [done|]. split; [done|]. split; [done|].
  split; [intros a; apply sorted_desc_stable|].
  split; [|split].
  - rewrite Htop, length_take, Hperm. done.
  - rewrite Htop. intros t b Ht Hb.
    rewrite <-(take_drop TOP_N_BOXES ranked) in Hsorted.
    apply StronglySorted_app_1_elem_of with (x1 := t) (x2 := b) in Hsorted;
      done.
  - rewrite Htop. etrans; [apply submseteq_take|].
    by apply Permutation_submseteq.
Qed.

(** C9 as stated fails: with a smaller box detected before a larger one the
    selection is the two boxes in the opposite order, which is not a
    subsequence of the detected boxes. *)
Lemma top_boxes_not_a_subsequence :
  ¬ sublist (select_top_boxes [(0, 0, 11, 11)%Z; (20, 0, 12, 12)%Z])
            [(0, 0, 11, 11)%Z; (20, 0, 12, 12)%Z].
Proof.
  change (select_top_boxes [(0, 0, 11, 11)%Z; (20, 0, 12, 12)%Z])
    with [(20, 0, 12, 12)%Z; (0, 0, 11, 11)%Z].
  intros H. apply sublist_cons_l in H as (k1 & k2 & Hk & Hsub).
  destruct k1 as [|b1 [|b2 k1]]; simplify_eq/=.
  - by apply sublist_nil_r in Hsub.
  - destruct k1; simplify_eq/=.
Qed.

(** ** The split is a function of the first eight hex digits *)

Lemma hex_value_range c d : hex_value c = Some d → (0 ≤ d ≤ 15)%Z.
Proof.
  unfold hex_value.
  repeat match goal with
         | |- context [(?a <=? ?b)%Z] => destruct (Z.leb_spec a b)
         end; simpl; intros [= <-]; lia.
Qed.

Lemma int16_from_range s acc :
  (∀ c, c ∈ String.list_ascii_of_string s → is_Some (hex_value c)) →
  ∃ n, int16_from acc s = Ok n ∧
       (acc * 16 ^ Z.of_nat (String.length s) ≤ n
        < (acc + 1) * 16 ^ Z.of_nat (String.length s))%Z.
Proof.
  revert acc. induction s as [|c s IH]; intros acc Hhex.
  - exists acc. split; [done|]. simpl. lia.
  - destruct (Hhex c) as [d Hd]; [simpl; left|].
    destruct (IH (acc * 16 + d)%Z) as (n & Hn & Hrange).
    { intros c' Hc'. apply Hhex. simpl. by right. }
    exists n. simpl int16_from. rewrite Hd. split; [done|].
    pose proof (hex_value_range c d Hd).
    cbn [String.length]. rewrite Nat2Z.inj_succ, Z.pow_succ_r by lia.
    nia.
Qed.

Lemma length_substring_8 sha :
  8 ≤ String.length sha → String.length (String.substring 0 8 sha) = 8.
Proof.
  intros H.
  do 8 (destruct sha as [|? sha]; [simpl in H; lia|]).
  simpl. destruct sha; reflexivity.
Qed.

(** *** The float quotient compares like the exact one *)

Lemma round_half_even_bound a b :
  (0 < b)%Z →
  (2 * a - b ≤ 2 * (round_half_even a b * b) ≤ 2 * a + b)%Z.
Proof.
  intros Hb. unfold round_half_even.
  pose proof (Z.div_mod a b ltac:(lia)) as Hdm.
  pose proof (Z.mod_pos_bound a b Hb) as Hr.
  set (q := (a / b)%Z) in *. set (r := (a mod b)%Z) in *.
  destruct (Z.ltb_spec (2 * r) b); [nia|].
  destruct (Z.ltb_spec b (2 * r)); [nia|].
  destruct (Z.even q); nia.
Qed.

Lemma quotient_exponent_ge n d :
  (0 ≤ n ≤ d)%Z → (52 ≤ quotient_exponent n d)%Z.
Proof.
  intros Hn. unfold quotient_exponent.
  assert (Z.log2 n ≤ Z.log2 d)%Z by (apply Z.log2_le_mono; lia).
  destruct (_ <? _)%Z; lia.
Qed.

Lemma Qc_frac_lt a b c d :
  (0 < b)%Z → (0 < d)%Z →
  (Qc_of_Z a / Qc_of_Z b < Qc_of_Z c / Qc_of_Z d)%Qc ↔ (a * d < c * b)%Z.
Proof.
  intros Hb Hd.
  assert (0 < Qc_of_Z b)%Qc as Hb'
    by (rewrite <-Z2Qc_inj_0; apply (proj1 (Z2Qc_inj_lt 0 b)), Hb).
  assert (0 < Qc_of_Z d)%Qc as Hd'
    by (rewrite <-Z2Qc_inj_0; apply (proj1 (Z2Qc_inj_lt 0 d)), Hd).
  assert (Qc_of_Z b ≠ 0)%Qc as Hb0
    by (intros E; rewrite E in Hb'; by apply Qclt_not_eq in Hb').
  assert (Qc_of_Z d ≠ 0)%Qc as Hd0
    by (intros E; rewrite E in Hd'; by apply Qclt_not_eq in Hd').
  rewrite (Qcmult_lt_mono_pos_r _ _ (Qc_of_Z b * Qc_of_Z d))
    by (by apply Qcmult_pos_pos).
  replace (Qc_of_Z a / Qc_of_Z b * (Qc_of_Z b * Qc_of_Z d))%Qc
    with (Qc_of_Z (a * d)).
  2:{ rewrite Z2Qc_inj_mul. field. done. }
  replace (Qc_of_Z c / Qc_of_Z d * (Qc_of_Z b * Qc_of_Z d))%Qc
    with (Qc_of_Z (c * b)).
  2:{ rewrite Z2Qc_inj_mul. field. done. }
  symmetry. apply Z2Qc_inj_lt.
Qed.

(** The float constants 0.8 and 0.9. *)
Lemma float_08 :
  fl_div 8 10 = (Qc_of_Z 7205759403792794 / Qc_of_Z 9007199254740992)%Qc.
Proof. apply Qc_is_canon. by vm_compute. Qed.

Lemma float_09 :
  fl_div 9 10 = (Qc_of_Z 8106479329266893 / Qc_of_Z 9007199254740992)%Qc.
Proof. apply Qc_is_canon. by vm_compute. Qed.

(** Mantissa and scale of the float quotient by 0xFFFFFFFF, with the
    rounding error bound. *)
Lemma fl_div_32 n :
  (0 ≤ n ≤ 0xFFFFFFFF)%Z →
  ∃ m P,
    fl_div n 0xFFFFFFFF = (Qc_of_Z m / Qc_of_Z P)%Qc ∧
    (4503599627370496 ≤ P)%Z ∧
    (2 * (n * P) - 4294967295 ≤ 2 * (m * 4294967295)
       ≤ 2 * (n * P) + 4294967295)%Z.
Proof.
  intros Hn. unfold fl_div.
  pose proof (quotient_exponent_ge n 0xFFFFFFFF Hn) as Hk.
  set (k := quotient_exponent n 0xFFFFFFFF) in *.
  exists (round_half_even (n * 2 ^ k) 0xFFFFFFFF), (2 ^ k)%Z.
  split; [done|]. split.
  - change 4503599627370496%Z with (2 ^ 52)%Z. apply Z.pow_le_mono_r; lia.
  - apply (round_half_even_bound (n * 2 ^ k) 0xFFFFFFFF). lia.
Qed.

Lemma fl_div_lt_08 n :
  (0 ≤ n ≤ 0xFFFFFFFF)%Z →
  (fl_div n 0xFFFFFFFF < fl_div 8 10)%Qc ↔ (5 * n < 4 * 0xFFFFFFFF)%Z.
Proof.
  intros Hn. rewrite float_08.
  destruct (decide (n = 3435973836%Z)) as [->|Hne].
  { split; [|lia]. intros H. exfalso. revert H. by vm_compute. }
  destruct (fl_div_32 n Hn) as (m & P & -> & HP & Hm).
  rewrite Qc_frac_lt by lia.
  split.
  - intros Hlt. destruct (Z.lt_ge_cases (5 * n) (4 * 0xFFFFFFFF)); [done|].
    exfalso.
    assert ((4 * 4294967295 + 1) * P ≤ 5 * (n * P))%Z by nia.
    lia.
  - intros Hlt.
    assert (5 * (n * P) ≤ (4 * 4294967295 - 1) * P)%Z by nia.
    lia.
Qed.

Lemma fl_div_lt_09 n :
  (0 ≤ n ≤ 0xFFFFFFFF)%Z →
  (fl_div n 0xFFFFFFFF < fl_div 9 10)%Qc ↔ (10 * n < 9 * 0xFFFFFFFF)%Z.
Proof.
  intros Hn. rewrite float_09.
  destruct (fl_div_32 n Hn) as (m & P & -> & HP & Hm).
  rewrite Qc_frac_lt by lia.
  split.
  - intros Hlt. destruct (Z.lt_ge_cases (10 * n) (9 * 0xFFFFFFFF)); [done|].
    exfalso.
    assert ((9 * 4294967295 + 1) * P ≤ 10 * (n * P))%Z by nia.
    lia.
  - intros Hlt.
    assert (10 * (n * P) ≤ (9 * 4294967295 - 1) * P)%Z by nia.
    lia.
Qed.



(** ** Scoring *)

(** The scoring lines under the contract of the external classifier. *)
Lemma score_consistent (rf_model : Classifier) (scaler : Scaler)
    (feature_vector : list Qc) (eps boundary : Qc) :
  (∀ x, ∃ p_real p_fake,
     predict_proba rf_model x = [p_real; p_fake] ∧
     (- eps ≤ p_real + p_fake - 1 ≤ eps)%Qc) →
  (∀ x p_fake,
     predict_proba rf_model x !! 1 = Some p_fake →
     (predict rf_model x = 1%Z ↔ (boundary < p_fake)%Qc)) →
  ∃ panel,
    score rf_model scaler feature_vector = Ok panel ∧
    (- eps ≤ prob_real panel + prob_fake panel - 1 ≤ eps)%Qc ∧
    fake_probability panel = prob_fake panel ∧
    (label panel = "FAKE" ↔ (boundary < fake_probability panel)%Qc) ∧
    (label panel = "REAL" ↔ ¬ (boundary < fake_probability panel)%Qc) ∧
    (is_fake panel = true ↔ label panel = "FAKE").
Proof.
  intros Hsum Hboundary. unfold score.
  set (x := transform scaler feature_vector).
  destruct (Hsum x) as (p_real & p_fake & Hp & Heps).
  specialize (Hboundary x p_fake). rewrite Hp in Hboundary |- *.
  specialize (Hboundary eq_refl). simpl.
  eexists. split; [done|]. simpl. split; [done|]. split; [done|].
  case_bool_decide as Hpred; (split; [|split]); split; try done;
    rewrite <-Hboundary; done.
Qed.

(** C7. Under the contract of the external classifier, namely that
    [predict_proba] yields the two class probabilities and that they sum
    to 1 up to a tolerance [eps], every analysis response (one is produced
    for every ELA map with at least one pixel) reports probabilities that
    sum to 1 up to [eps]; and when [predict] answers 1 exactly for the
    samples whose fake probability exceeds a boundary (the decision
    boundary that [predict] implies), the label is "FAKE" iff the reported
    fake probability exceeds that boundary, and "REAL" otherwise. *)
Theorem response_is_consistent (np_sqrt : Qc → Qc) (rf_model : Classifier)
    (scaler : Scaler) (threshold_multiplier : Qc) (min_region_size : Z)
    (ela_array : array2 Z) (eps boundary : Qc) :
  ravel ela_array ≠ [] →
  (∀ x, ∃ p_real p_fake,
     predict_proba rf_model x = [p_real; p_fake] ∧
     (- eps ≤ p_real + p_fake - 1 ≤ eps)%Qc) →
  (∀ x p_fake,
     predict_proba rf_model x !! 1 = Some p_fake →
     (predict rf_model x = 1%Z ↔ (boundary < p_fake)%Qc)) →
  ∃ resp,
    analyze_image np_sqrt rf_model scaler threshold_multiplier
      min_region_size ela_array = Ok resp ∧
    let panel := analysis resp in
    (- eps ≤ prob_real panel + prob_fake panel - 1 ≤ eps)%Qc ∧
    fake_probability panel = prob_fake panel ∧
    (label panel = "FAKE" ↔ (boundary < fake_probability panel)%Qc) ∧
    (label panel = "REAL" ↔ ¬ (boundary < fake_probability panel)%Qc) ∧
    (is_fake panel = true ↔ label panel = "FAKE").
Proof.
  intros Hne Hsum Hboundary. unfold analyze_image.
  destruct (extract_features_Ok np_sqrt threshold_multiplier min_region_size
              ela_array Hne)
    as (max_v & r & avg & mx & ai & sd & _ & _ & _ & ->).
  cbn [mbind result_bind features].
  match goal with
  | |- context [score rf_model scaler ?v] =>
      destruct (score_consistent rf_model scaler v eps boundary
                  Hsum Hboundary) as (panel & -> & Hpanel)
  end.
  cbn [mbind result_bind]. eexists. split; [reflexivity|]. exact Hpanel.
Qed.

Lemma response_is_consistent_witness :
  ∃ resp,
    analyze_image sqrt_fixed stub_classifier stub_scaler (Qc_of_Z 2) 50
      [[1; 2; 3]; [4; 5; 250]]%Z = Ok resp ∧
    label (analysis resp) = "FAKE" ∧
    (prob_real (analysis resp) + prob_fake (analysis resp) - 1 ≤ 0)%Qc.
Proof.
  destruct (response_is_consistent sqrt_fixed stub_classifier stub_scaler
              (Qc_of_Z 2) 50 [[1; 2; 3]; [4; 5; 250]]%Z
              0%Qc (Qc_of_Z 1 / Qc_of_Z 2)%Qc)
    as (resp & Hresp & [_ Hle] & _ & Hlabel & _).
  - discriminate.
  - intros x. eexists _, _. split; [reflexivity|].
    split; vm_compute; discriminate.
  - intros x p_fake [= <-]. split; [intros _|done].
    vm_compute. reflexivity.
  - exists resp. split; [exact Hresp|]. split; [|exact Hle].
    apply Hlabel.
    assert (fake_probability (analysis resp)
            = (Qc_of_Z 9 / Qc_of_Z 10)%Qc) as ->.
    { revert Hresp. unfold analyze_image.
      destruct (extract_features _ _ _ _) as [out|]; [|discriminate].
      cbn [mbind result_bind]. unfold score. simpl. by intros [= <-]. }
    vm_compute. reflexivity.
Defined.

(** ** Startup *)


(** C4 (amended). Loading fails with RuntimeError as soon as one of the
    three artifact files is absent, and with KeyError when the
    configuration object lacks one of the four keys read with
    [config[...]]; a configuration without [feature_names] is not an
    error: with the three files readable and the four keys present the
    artifacts are loaded and [feature_names] is the empty list. *)
Theorem startup_needs_files_and_keys (dir : artifact_dir) :
  (MODEL_PATH dir = Absent ∨ SCALER_PATH dir = Absent
     ∨ CONFIG_PATH dir = Absent →
   _load_artifacts dir = Raise RuntimeError)
  ∧ (∀ rf_model scaler members,
     MODEL_PATH dir = Holds rf_model →
     SCALER_PATH dir = Holds scaler →
     CONFIG_PATH dir = Holds (JObject members) →
     (∃ key, key ∈ required_keys ∧ members !! key = None) →
     ∃ key, key ∈ required_keys ∧ _load_artifacts dir = Raise (KeyError key))
  ∧ (∀ rf_model scaler members,
     MODEL_PATH dir = Holds rf_model →
     SCALER_PATH dir = Holds scaler →
     CONFIG_PATH dir = Holds (JObject members) →
     (∀ key, key ∈ required_keys → is_Some (members !! key)) →
     members !! "feature_names" = None →
     ∃ cfg, _load_artifacts dir = Ok (rf_model, scaler, cfg) ∧
            feature_names cfg = JArray []).
Proof.
  split; [|split].
  - unfold _load_artifacts.
    destruct (MODEL_PATH dir), (SCALER_PATH dir), (CONFIG_PATH dir);
      simpl; try done; intros [?|[?|?]]; done.
  - intros rf_model scaler members Hm Hs Hc (key & Hkey & Hnone).
    unfold _load_artifacts. rewrite Hm, Hs, Hc. simpl.
    unfold required_keys in *.
    destruct (members !! "ela_quality") eqn:H1; simpl;
      [|exists "ela_quality"; split; [in_list | done]].
    destruct (members !! "threshold_multiplier") eqn:H2; simpl;
      [|exists "threshold_multiplier"; split; [in_list | done]].
    destruct (members !! "min_region_size") eqn:H3; simpl;
      [|exists "min_region_size"; split; [in_list | done]].
    destruct (members !! "enhancement_strength") eqn:H4; simpl;
      [|exists "enhancement_strength"; split; [in_list | done]].
    repeat (apply elem_of_cons in Hkey as [->|Hkey]; [congruence|]).
    by apply not_elem_of_nil in Hkey.
  - intros rf_model scaler members Hm Hs Hc Hkeys Hnames.
    unfold _load_artifacts. rewrite Hm, Hs, Hc. simpl.
    destruct (Hkeys "ela_quality") as [q ->]; [in_list|].
    destruct (Hkeys "threshold_multiplier") as [m ->]; [in_list|].
    destruct (Hkeys "min_region_size") as [s ->]; [in_list|].
    destruct (Hkeys "enhancement_strength") as [e ->]; [in_list|].
    simpl. rewrite Hnames. simpl. eauto.
Qed.

Lemma startup_needs_files_and_keys_witness :
  _load_artifacts {| MODEL_PATH := Absent; SCALER_PATH := Holds stub_scaler;
                     CONFIG_PATH := Holds JNull |} = Raise RuntimeError
  ∧ (∃ key, key ∈ required_keys ∧
       _load_artifacts
         {| MODEL_PATH := Holds stub_classifier;
            SCALER_PATH := Holds stub_scaler;
            CONFIG_PATH := Holds (JObject config_without_min_region) |}
       = Raise (KeyError key))
  ∧ ∃ cfg, _load_artifacts dir_without_names
             = Ok (stub_classifier, stub_scaler, cfg) ∧
           feature_names cfg = JArray [].
Proof.
  split; [|split].
  - apply (startup_needs_files_and_keys
             {| MODEL_PATH := Absent; SCALER_PATH := Holds stub_scaler;
                CONFIG_PATH := Holds JNull |}).
    by left.
  - apply (proj1 (proj2 (startup_needs_files_and_keys
             {| MODEL_PATH := Holds stub_classifier;
                SCALER_PATH := Holds stub_scaler;
                CONFIG_PATH := Holds (JObject config_without_min_region) |}))
             stub_classifier stub_scaler config_without_min_region);
      try reflexivity.
    exists "min_region_size". split; [unfold required_keys; in_list|].
    by vm_compute.
  - apply (proj2 (proj2 (startup_needs_files_and_keys dir_without_names))
             stub_classifier stub_scaler config_without_names);
      try reflexivity.
    intros key Hkey. unfold required_keys in Hkey.
    repeat (apply elem_of_cons in Hkey as [->|Hkey];
            [vm_compute; by eexists|]).
    by apply not_elem_of_nil in Hkey.
Defined.

(** C4 as stated fails for the fourth artifact: with the classifier, the
    scaler and a configuration that has no [feature_names] the service
    starts. *)
Lemma starts_without_feature_names :
  config_without_names !! "feature_names" = None ∧
  ∃ cfg, _load_artifacts dir_without_names
           = Ok (stub_classifier, stub_scaler, cfg).
Proof. split; [by vm_compute|]. eexists. by vm_compute. Qed.

(** * Further properties *)

(** ** Signed 64-bit hashes *)

(** X1. [to_signed_bigint] maps the unsigned 64-bit values one-to-one onto
    the signed 64-bit range: the result fits in a signed 64-bit column, it
    is the value itself below 2^63, and the value is recovered from it
    modulo 2^64. *)
Theorem to_signed_bigint_int64 (value : Z) :
  (0 ≤ value < 2 ^ 64)%Z →
  (- 2 ^ 63 ≤ to_signed_bigint value < 2 ^ 63)%Z ∧
  (to_signed_bigint value mod 2 ^ 64 = value)%Z ∧
  (to_signed_bigint value = value ↔ value < 2 ^ 63)%Z ∧
  (∀ other, (0 ≤ other < 2 ^ 64)%Z →
            to_signed_bigint other = to_signed_bigint value → other = value).
Proof.
  intros Hv. unfold to_signed_bigint.
  destruct (Z.leb_spec (2 ^ 63) value) as [Hge|Hlt].
  - split; [lia|]. split.
    + replace (value - 2 ^ 64)%Z with (value + (-1) * 2 ^ 64)%Z by lia.
      rewrite Z.mod_add by lia. apply Z.mod_small. lia.
    + split; [lia|]. intros other Ho.
      destruct (Z.leb_spec (2 ^ 63) other); lia.
  - split; [lia|]. split; [apply Z.mod_small; lia|].
    split; [lia|]. intros other Ho.
    destruct (Z.leb_spec (2 ^ 63) other); lia.
Qed.

Lemma to_signed_bigint_int64_witness :
  to_signed_bigint 0xFFFFFFFFFFFFFFFF = (-1)%Z ∧
  (to_signed_bigint 0xFFFFFFFFFFFFFFFF mod 2 ^ 64 = 0xFFFFFFFFFFFFFFFF)%Z.
Proof.
  destruct (to_signed_bigint_int64 0xFFFFFFFFFFFFFFFF) as (_ & Hmod & _).
  - lia.
  - split; [reflexivity | exact Hmod].
Defined.

(** X2. The perceptual hash read from at most 16 hexadecimal digits and
    converted with [to_signed_bigint], as [process_file] does, fits in a
    signed 64-bit column. *)
Theorem phash_fits_int64 (hash_text : string) :
  1 ≤ String.length hash_text ≤ 16 →
  (∀ c, c ∈ String.list_ascii_of_string hash_text → is_Some (hex_value c)) →
  ∃ n,
    compute_phash hash_text = Ok n ∧
    (0 ≤ n < 2 ^ 64)%Z ∧
    (- 2 ^ 63 ≤ to_signed_bigint n < 2 ^ 63)%Z.
Proof.
  intros Hlen Hhex.
  destruct (int16_from_range hash_text 0%Z Hhex) as (n & Hn & Hrange).
  assert (16 ^ Z.of_nat (String.length hash_text) ≤ 16 ^ 16)%Z as Hpow
    by (apply Z.pow_le_mono_r; lia).
  assert (0 ≤ n < 2 ^ 64)%Z as Hn64.
  { change (2 ^ 64)%Z with (16 ^ 16)%Z.
    assert (0 < 16 ^ Z.of_nat (String.length hash_text))%Z
      by (apply Z.pow_pos_nonneg; lia).
    lia. }
  exists n. split; [|split; [done|]].
  - unfold compute_phash, int16.
    destruct hash_text; [simpl in Hlen; lia | exact Hn].
  - unfold to_signed_bigint. destruct (Z.leb_spec (2 ^ 63) n); lia.
Qed.

Lemma phash_fits_int64_witness :
  ∃ n, compute_phash "ffffffffffffffff" = Ok n ∧ to_signed_bigint n = (-1)%Z.
Proof.
  destruct (phash_fits_int64 "ffffffffffffffff") as (n & Hn & _ & _).
  - simpl. lia.
  - intros c Hc. simpl in Hc.
    repeat (apply elem_of_cons in Hc as [->|Hc]; [by eexists|]).
    by apply not_elem_of_nil in Hc.
  - exists n. split; [exact Hn|].
    injection Hn as <-. reflexivity.
Defined.

(** ** The split by integer ranges, and its errors *)

Lemma int16_from_bad s acc :
  (∃ c, c ∈ String.list_ascii_of_string s ∧ hex_value c = None) →
  int16_from acc s = Raise ValueError.
Proof.
  revert acc. induction s as [|c s IH]; intros acc (c' & Hc' & Hnone).
  - by apply not_elem_of_nil in Hc'.
  - simpl in *. destruct (hex_value c) as [d|] eqn:Hd; [|done].
    apply IH. exists c'. split; [|done].
    apply elem_of_cons in Hc' as [->|Hc']; [congruence | done].
Qed.

Lemma length_substring_le n s : String.length (String.substring 0 n s) ≤ n.
Proof.
  revert s. induction n as [|n IH]; intros [|c s]; simpl; try lia.
  specialize (IH s). lia.
Qed.

(** The split as a function of the value of the digits. *)
Lemma assign_split_of_int sha n :
  int16 (String.substring 0 8 sha) = Ok n →
  (0 ≤ n ≤ 0xFFFFFFFF)%Z →
  assign_split_from_checksum sha
  = Ok (if (5 * n <? 4 * 0xFFFFFFFF)%Z then "train"
        else if (10 * n <? 9 * 0xFFFFFFFF)%Z then "val" else "test").
Proof.
  intros Hint Hn. unfold assign_split_from_checksum. rewrite Hint.
  cbn [mbind result_bind]. unfold SPLIT_THRESHOLDS.
  pose proof (fl_div_lt_08 n Hn) as H8. pose proof (fl_div_lt_09 n Hn) as H9.
  destruct (decide (fl_div n 0xFFFFFFFF < fl_div 8 10)%Qc) as [H1|H1].
  - apply H8 in H1. by destruct (Z.ltb_spec (5 * n) (4 * 0xFFFFFFFF)); [|lia].
  - assert (¬ (5 * n < 4 * 0xFFFFFFFF)%Z) by (by rewrite <-H8).
    destruct (Z.ltb_spec (5 * n) (4 * 0xFFFFFFFF)); [lia|].
    destruct (decide (fl_div n 0xFFFFFFFF < fl_div 9 10)%Qc) as [H2|H2].
    + apply H9 in H2.
      by destruct (Z.ltb_spec (10 * n) (9 * 0xFFFFFFFF)); [|lia].
    + assert (¬ (10 * n < 9 * 0xFFFFFFFF)%Z) by (by rewrite <-H9).
      by destruct (Z.ltb_spec (10 * n) (9 * 0xFFFFFFFF)); [lia|].
Qed.

(** The digits that are read, when they are all hexadecimal. *)
Lemma int16_prefix_Ok sha :
  sha ≠ "" →
  (∀ c, c ∈ String.list_ascii_of_string (String.substring 0 8 sha) →
        is_Some (hex_value c)) →
  ∃ n, int16 (String.substring 0 8 sha) = Ok n ∧
       (0 ≤ n < 16 ^ Z.of_nat (String.length (String.substring 0 8 sha)))%Z ∧
       (0 ≤ n ≤ 0xFFFFFFFF)%Z.
Proof.
  intros Hne Hhex.
  destruct (int16_from_range _ 0%Z Hhex) as (n & Hn & Hrange).
  exists n. split; [|split; [lia|]].
  - unfold int16. destruct sha as [|c sha]; [done|]. exact Hn.
  - pose proof (length_substring_le 8 sha).
    assert (16 ^ Z.of_nat (String.length (String.substring 0 8 sha))
            ≤ 16 ^ 8)%Z by (apply Z.pow_le_mono_r; lia).
    change (16 ^ 8)%Z with 4294967296%Z in *. lia.
Qed.

(** X3. The split in terms of the 32-bit value [n] of the first eight hex
    digits: "train" iff [n <= 0xCCCCCCCB], "val" iff
    [0xCCCCCCCC <= n <= 0xE6666665], "test" iff [0xE6666666 <= n]; the split
    is therefore monotone in [n]. *)
Theorem split_integer_ranges (sha : string) :
  8 ≤ String.length sha →
  (∀ c, c ∈ String.list_ascii_of_string (String.substring 0 8 sha) →
        is_Some (hex_value c)) →
  ∃ n,
    int16 (String.substring 0 8 sha) = Ok n ∧
    (0 ≤ n ≤ 0xFFFFFFFF)%Z ∧
    (assign_split_from_checksum sha = Ok "train" ↔ (n ≤ 0xCCCCCCCB)%Z) ∧
    (assign_split_from_checksum sha = Ok "val"
       ↔ (0xCCCCCCCC ≤ n ≤ 0xE6666665)%Z) ∧
    (assign_split_from_checksum sha = Ok "test" ↔ (0xE6666666 ≤ n)%Z).
Proof.
  intros Hlen Hhex.
  assert (sha ≠ "") as Hne by (intros ->; simpl in Hlen; lia).
  destruct (int16_prefix_Ok sha Hne Hhex) as (n & Hint & _ & Hn).
  exists n. split; [done|]. split; [done|].
  rewrite (assign_split_of_int sha n Hint Hn).
  destruct (Z.ltb_spec (5 * n) (4 * 0xFFFFFFFF));
    [|destruct (Z.ltb_spec (10 * n) (9 * 0xFFFFFFFF))];
    (split; [|split]); split; intros H'; (discriminate H' || lia || done).
Qed.

Lemma split_integer_ranges_witness :
  assign_split_from_checksum "e6666665ffffffffffffffff" = Ok "val".
Proof.
  destruct (split_integer_ranges "e6666665ffffffffffffffff")
    as (n & Hn & _ & _ & Hval & _).
  - simpl. lia.
  - intros c Hc. simpl in Hc.
    repeat (apply elem_of_cons in Hc as [->|Hc]; [by eexists|]).
    by apply not_elem_of_nil in Hc.
  - apply Hval. vm_compute in Hn. injection Hn as <-. lia.
Defined.



(** ** Domain folder names *)

Lemma domain_char_not_space c : domain_char c = true → is_space c = false.
Proof.
  unfold domain_char, is_space, code_between.
  destruct (Nat.leb_spec 97 (Ascii.nat_of_ascii c));
    destruct (Nat.leb_spec (Ascii.nat_of_ascii c) 122);
    destruct (Nat.eqb_spec (Ascii.nat_of_ascii c) 95);
    destruct (Nat.leb_spec 9 (Ascii.nat_of_ascii c));
    destruct (Nat.leb_spec (Ascii.nat_of_ascii c) 13);
    destruct (Nat.leb_spec 28 (Ascii.nat_of_ascii c));
    destruct (Nat.leb_spec (Ascii.nat_of_ascii c) 31);
    destruct (Nat.eqb_spec (Ascii.nat_of_ascii c) 32);
    simpl; (done || lia).
Qed.

Lemma filter_lstrip l :
  filter (λ c, domain_char c = true) (lstrip l)
  = filter (λ c, domain_char c = true) l.
Proof.
  induction l as [|c l IH]; [done|]. simpl.
  destruct (is_space c) eqn:Hs; [|done].
  rewrite IH, filter_cons_False; [done|].
  intros Hd. apply domain_char_not_space in Hd. congruence.
Qed.

(** Stripping the name before the substitution changes nothing. *)
Lemma filter_py_strip l :
  filter (λ c, domain_char c = true) (py_strip l)
  = filter (λ c, domain_char c = true) l.
Proof.
  unfold py_strip.
  by rewrite filter_reverse, filter_lstrip, filter_reverse, filter_lstrip,
    reverse_involutive.
Qed.

Lemma normalize_domain_unfold name :
  normalize_domain name
  = if decide (domain_alias (domain_letters name) ∈ VALID_DOMAINS)
    then Ok (domain_alias (domain_letters name)) else Raise ValueError.
Proof. unfold normalize_domain, domain_letters. by rewrite filter_py_strip. Qed.

(** X5. Which folder names [normalize_domain] accepts (ASCII names): only
    the letters and underscores of the name count, in lower case; digits,
    blanks, hyphens and any other character are dropped wherever they
    stand. The name is "id" or "receipt" iff these letters spell it,
    "car_accident" iff they spell car_accident, caraccident or
    car_accidents, and ValueError is raised otherwise. The result is a valid
    domain, and normalizing it again gives it back. *)
Theorem normalize_domain_accepts (name : string) :
  Forall is_ascii (String.list_ascii_of_string name) →
  (normalize_domain name = Ok "id" ↔ domain_letters name = "id") ∧
  (normalize_domain name = Ok "receipt" ↔ domain_letters name = "receipt") ∧
  (normalize_domain name = Ok "car_accident"
     ↔ domain_letters name ∈ ["car_accident"; "caraccident"; "car_accidents"]) ∧
  (normalize_domain name = Raise ValueError
     ↔ domain_letters name ∉ ["id"; "receipt"; "car_accident"; "caraccident";
                               "car_accidents"]) ∧
  (∀ d, normalize_domain name = Ok d →
        d ∈ VALID_DOMAINS ∧ normalize_domain d = Ok d) ∧
  (∀ other, domain_letters other = domain_letters name →
            normalize_domain other = normalize_domain name).
Proof.
  intros _.
  assert (∀ d, d ∈ VALID_DOMAINS → normalize_domain d = Ok d) as Hfix.
  { intros d Hd. unfold VALID_DOMAINS in Hd.
    repeat (apply elem_of_cons in Hd as [->|Hd]; [by vm_compute|]).
    by apply not_elem_of_nil in Hd. }
  assert (∀ other, domain_letters other = domain_letters name →
            normalize_domain other = normalize_domain name) as Hsame.
  { intros other Ho. by rewrite !normalize_domain_unfold, Ho. }
  cut ((normalize_domain name = Ok "id" ↔ domain_letters name = "id") ∧
       (normalize_domain name = Ok "receipt"
          ↔ domain_letters name = "receipt") ∧
       (normalize_domain name = Ok "car_accident"
          ↔ domain_letters name
              ∈ ["car_accident"; "caraccident"; "car_accidents"]) ∧
       (normalize_domain name = Raise ValueError
          ↔ domain_letters name
              ∉ ["id"; "receipt"; "car_accident"; "caraccident";
                 "car_accidents"]) ∧
       (∀ d, normalize_domain name = Ok d → d ∈ VALID_DOMAINS)).
  { intros (H1 & H2 & H3 & H4 & H5). split_and!; try done.
    intros d Hd. split; [by apply H5 | apply Hfix; by apply H5]. }
  clear Hsame Hfix. rewrite normalize_domain_unfold.
  generalize (domain_letters name). intros n.
  destruct (decide (n = "id")) as [->|N1]; [dom_known|].
  destruct (decide (n = "receipt")) as [->|N2]; [dom_known|].
  destruct (decide (n = "car_accident")) as [->|N3]; [dom_known|].
  destruct (decide (n = "caraccident")) as [->|N4]; [dom_known|].
  destruct (decide (n = "car_accidents")) as [->|N5]; [dom_known|].
  unfold domain_alias.
  destruct (decide (n = "caraccident")); [done|].
  destruct (decide (n = "car_accidents")); [done|].
  destruct (decide (n ∈ VALID_DOMAINS)) as [H|H];
    [exfalso; unfold VALID_DOMAINS in H; dom_mem_contra H|].
  split_and!; dom_close.
Qed.

Lemma normalize_domain_accepts_witness :
  normalize_domain " Car-Accident 2" = Ok "car_accident".
Proof.
  destruct (normalize_domain_accepts " Car-Accident 2") as (_ & _ & H3 & _).
  - apply Forall_forall. intros c Hc. simpl in Hc.
    repeat (apply elem_of_cons in Hc as [->|Hc];
            [unfold is_ascii; apply Nat.ltb_lt; reflexivity|]).
    by apply not_elem_of_nil in Hc.
  - apply H3. vm_compute. in_list.
Defined.

(** ** Loading the artifacts *)

(** X6. Loading succeeds exactly when the three files are readable, the
    configuration is a JSON object and it has the four keys read with
    [config[...]]. The values are taken as they are, whatever their JSON
    type, [feature_names] included (the empty list when absent); nothing
    else of the configuration is looked at. *)
Theorem load_artifacts_succeeds_iff (dir : artifact_dir)
    (rf_model : Classifier) (scaler : Scaler) (cfg : ElaConfig) :
  _load_artifacts dir = Ok (rf_model, scaler, cfg)
  ↔ MODEL_PATH dir = Holds rf_model ∧
    SCALER_PATH dir = Holds scaler ∧
    ∃ members,
      CONFIG_PATH dir = Holds (JObject members) ∧
      members !! "ela_quality" = Some (ela_quality cfg) ∧
      members !! "threshold_multiplier" = Some (threshold_multiplier cfg) ∧
      members !! "min_region_size" = Some (min_region_size cfg) ∧
      members !! "enhancement_strength" = Some (enhancement_strength cfg) ∧
      feature_names cfg
        = from_option id (JArray []) (members !! "feature_names").
Proof.
  unfold _load_artifacts. split.
  - destruct (MODEL_PATH dir) as [| |m], (SCALER_PATH dir) as [| |s],
      (CONFIG_PATH dir) as [| |config]; simpl; try done.
    destruct config as [| | | | | |members]; simpl; try done.
    destruct (members !! "ela_quality") as [q|] eqn:H1; simpl; [|done].
    destruct (members !! "threshold_multiplier") as [m'|] eqn:H2; simpl;
      [|done].
    destruct (members !! "min_region_size") as [s'|] eqn:H3; simpl; [|done].
    destruct (members !! "enhancement_strength") as [e|] eqn:H4; simpl;
      [|done].
    intros [= <- <- <-]. simpl.
    split; [done|]. split; [done|]. exists members. by split_and!.
  - intros (-> & -> & members & -> & H1 & H2 & H3 & H4 & H5). simpl.
    rewrite H1, H2, H3, H4. simpl. rewrite <-H5. by destruct cfg.
Qed.

(** With the three files readable and an object as configuration, the
    outcome is decided by the first missing key. *)
Lemma load_artifacts_object dir rf_model scaler members :
  MODEL_PATH dir = Holds rf_model → SCALER_PATH dir = Holds scaler →
  CONFIG_PATH dir = Holds (JObject members) →
  match first_missing members required_keys with
  | Some key => _load_artifacts dir = Raise (KeyError key)
  | None => ∃ cfg, _load_artifacts dir = Ok (rf_model, scaler, cfg)
  end.
Proof.
  intros Hm Hs Hc. unfold _load_artifacts, required_keys.
  rewrite Hm, Hs, Hc. simpl.
  destruct (members !! "ela_quality"); simpl; [|done].
  destruct (members !! "threshold_multiplier"); simpl; [|done].
  destruct (members !! "min_region_size"); simpl; [|done].
  destruct (members !! "enhancement_strength"); simpl; [|done].
  eauto.
Qed.

(** X7. What loading raises, in the order of the checks: RuntimeError iff
    one of the three files is absent (before any file is read); otherwise
    LoadError iff one of them cannot be read; otherwise TypeError iff the
    configuration is not a JSON object; otherwise KeyError for the first of
    the four keys that is missing. No other exception is raised. *)
Theorem load_artifacts_errors (dir : artifact_dir) :
  let all_exist :=
    path_exists (MODEL_PATH dir) && path_exists (SCALER_PATH dir)
    && path_exists (CONFIG_PATH dir) in
  let some_unreadable :=
    unreadable (MODEL_PATH dir) || unreadable (SCALER_PATH dir)
    || unreadable (CONFIG_PATH dir) in
  (_load_artifacts dir = Raise RuntimeError ↔ all_exist = false) ∧
  (_load_artifacts dir = Raise LoadError
     ↔ all_exist = true ∧ some_unreadable = true) ∧
  (_load_artifacts dir = Raise TypeError
     ↔ all_exist = true ∧ some_unreadable = false ∧
       ∃ config, CONFIG_PATH dir = Holds config ∧ is_object config = false) ∧
  (∀ key, _load_artifacts dir = Raise (KeyError key)
     ↔ all_exist = true ∧ some_unreadable = false ∧
       ∃ members, CONFIG_PATH dir = Holds (JObject members) ∧
                  first_missing members required_keys = Some key) ∧
  (∀ e, _load_artifacts dir = Raise e →
        e = RuntimeError ∨ e = LoadError ∨ e = TypeError
        ∨ ∃ key, key ∈ required_keys ∧ e = KeyError key).
Proof.
  intros all_exist some_unreadable. subst all_exist some_unreadable.
  destruct (MODEL_PATH dir) as [| |m] eqn:Hm,
    (SCALER_PATH dir) as [| |s] eqn:Hs,
    (CONFIG_PATH dir) as [| |config] eqn:Hc;
    try (unfold _load_artifacts; rewrite Hm, Hs, Hc; simpl;
         split_and!; [naive_solver..|intros e [= <-]; eauto]).
  destruct config as [| | | | | |members];
    try (unfold _load_artifacts; rewrite Hm, Hs, Hc; simpl;
         split_and!; [naive_solver..|intros e [= <-]; eauto]).
  pose proof (load_artifacts_object dir m s members Hm Hs Hc) as Hload.
  assert (∀ key, first_missing members required_keys = Some key →
                 key ∈ required_keys) as Hin.
  { unfold required_keys. cbn [first_missing]. intros key.
    repeat (destruct (members !! _); [|intros [= <-]; in_list]). done. }
  simpl. destruct (first_missing members required_keys) as [k|] eqn:Hk.
  - rewrite Hload. split_and!; naive_solver.
  - destruct Hload as [cfg ->]. split_and!; naive_solver.
Qed.

(** ** Regions returned by [find_suspicious_regions] *)

Lemma lookup2_fmap {A B} (f : A → B) (a : array2 A) y x :
  lookup2 ((λ row : list A, f <$> row) <$> a) y x = f <$> lookup2 a y x.
Proof.
  unfold lookup2. rewrite list_lookup_fmap.
  destruct (a !! y) as [row|]; simpl; [|done]. by rewrite list_lookup_fmap.
Qed.

Lemma shape_fmap {A B} (f : A → B) (a : array2 A) :
  shape ((λ row : list A, f <$> row) <$> a) = shape a.
Proof.
  unfold shape. rewrite <-list_fmap_compose. apply list_fmap_ext.
  intros _ row _. simpl. by rewrite length_fmap.
Qed.

Lemma lookup2_imap {A B} (f : nat → nat → A → B) (a : array2 A) y x :
  lookup2 (imap (λ y row, imap (λ x v, f y x v) row) a) y x
  = f y x <$> lookup2 a y x.
Proof.
  unfold lookup2. rewrite list_lookup_imap.
  destruct (a !! y) as [row|]; simpl; [|done]. by rewrite list_lookup_imap.
Qed.

Lemma shape_imap {A B} (f : nat → nat → A → B) (a : array2 A) :
  shape (imap (λ y row, imap (λ x v, f y x v) row) a) = shape a.
Proof.
  unfold shape. apply list_eq. intros y.
  rewrite !list_lookup_fmap, list_lookup_imap.
  destruct (a !! y) as [row|]; simpl; [|done]. by rewrite length_imap.
Qed.

Lemma mask_at_true m y x :
  mask_at m y x = true ↔ lookup2 m y x = Some true.
Proof.
  unfold mask_at. destruct (lookup2 m y x) as [[]|]; simpl; split; congruence.
Qed.

Lemma mask_at_gt_mask ela threshold y x :
  mask_at (gt_mask ela threshold) y x = true →
  ∃ v, lookup2 ela y x = Some v ∧ (threshold < Qc_of_Z v)%Qc.
Proof.
  rewrite mask_at_true. unfold gt_mask. rewrite lookup2_fmap.
  destruct (lookup2 ela y x) as [v|]; simpl; [|done].
  intros [= H]. apply bool_decide_eq_true in H. eauto.
Qed.

(** The opening by the 2x2 element removes pixels and adds none. *)
Lemma binary_opening_sub m y x :
  mask_at (binary_opening m) y x = true → mask_at m y x = true.
Proof.
  unfold binary_opening, dilate2x2.
  assert (∀ y' x', mask_at (erode2x2 m) y' x' = true →
            ∃ y0 x0, y' = S y0 ∧ x' = S x0 ∧
              mask_at m y0 x0 = true ∧ mask_at m y0 x' = true ∧
              mask_at m y' x0 = true ∧ mask_at m y' x' = true) as Her.
  { intros y' x'. rewrite mask_at_true. unfold erode2x2.
    rewrite lookup2_imap. destruct (lookup2 m y' x'); simpl; [|done].
    destruct y' as [|y0], x' as [|x0]; try done.
    intros [= H]. apply andb_prop in H as [H H4].
    apply andb_prop in H as [H H3]. apply andb_prop in H as [H1 H2].
    eauto 10. }
  rewrite mask_at_true, lookup2_imap.
  destruct (lookup2 (erode2x2 m) y x); simpl; [|done].
  intros [= H]. apply orb_prop in H as [H|H];
    [apply orb_prop in H as [H|H]; [apply orb_prop in H as [H|H]|]|];
    apply Her in H as (y0 & x0 & Hy & Hx & H1 & H2 & H3 & H4);
    simplify_eq; done.
Qed.

Lemma shape_binary_opening m : shape (binary_opening m) = shape m.
Proof.
  unfold binary_opening, dilate2x2, erode2x2.
  by rewrite (shape_imap (λ y x _, _)), (shape_imap (λ y x _, _)).
Qed.

(** The labelling gives labels to pixels of the mask only. *)
Lemma flood_in_mask m c fuel work lab :
  (∀ y x, label_at lab y x ≠ 0 → mask_at m y x = true) →
  ∀ y x, label_at (flood m c fuel work lab) y x ≠ 0 → mask_at m y x = true.
Proof.
  revert work lab. induction fuel as [|fuel IH]; intros work lab Hl; [done|].
  simpl. destruct work as [|[y0 x0] rest]; [done|].
  destruct (mask_at m y0 x0 && (label_at lab y0 x0 =? 0)) eqn:Hc;
    [|by apply IH].
  apply andb_prop in Hc as [Hm _]. apply IH. intros y x.
  destruct (decide ((y0, x0) = (y, x))) as [[= <- <-]|Hne]; [done|].
  unfold label_at. rewrite lookup2_set2_ne by done. apply Hl.
Qed.

Lemma label_at_full_like {A} (a : array2 A) y x :
  label_at (full_like a 0) y x = 0.
Proof.
  unfold label_at, full_like. rewrite lookup2_fmap.
  by destruct (lookup2 a y x).
Qed.

Lemma ndimage_label_in_mask m lab n :
  ndimage_label m = (lab, n) →
  shape lab = shape m ∧
  ∀ y x, label_at lab y x ≠ 0 → mask_at m y x = true.
Proof.
  intros Hl. split.
  - assert (label_inv m (lab, n)) as [Hs _]; [|done].
    rewrite <-Hl. apply foldl_label_inv. split; simpl.
    + apply shape_full_like.
    + lia.
  - unfold ndimage_label in Hl.
    assert (∀ ps st,
      (∀ y x, label_at st.1 y x ≠ 0 → mask_at m y x = true) →
      ∀ y x, label_at (foldl (label_step m) st ps).1 y x ≠ 0 →
             mask_at m y x = true) as Hfold.
    { induction ps as [|[y0 x0] ps IH]; intros [lab0 n0] H0; [done|].
      simpl foldl. apply IH.
      destruct (mask_at m y0 x0 && (label_at lab0 y0 x0 =? 0)); [|done].
      simpl. by apply flood_in_mask. }
    specialize (Hfold (indices m) (full_like m 0, 0)). rewrite Hl in Hfold.
    apply Hfold. intros y x. simpl. by rewrite label_at_full_like.
Qed.

(** The label image that [find_suspicious_regions] works on. *)
Lemma labels_above_of_label ela threshold lab n :
  ndimage_label
    (if noisy (count_true (gt_mask ela threshold)) (array_size ela)
     then binary_opening (gt_mask ela threshold)
     else gt_mask ela threshold) = (lab, n) →
  labels_above ela threshold lab.
Proof.
  intros Hl. apply ndimage_label_in_mask in Hl as [Hs Hm]. split.
  - rewrite Hs. unfold gt_mask.
    destruct (noisy _ _); [rewrite shape_binary_opening|]; apply shape_fmap.
  - intros y x Hyx. apply Hm in Hyx. apply mask_at_gt_mask.
    destruct (noisy _ _); [by apply binary_opening_sub | done].
Qed.

Lemma elem_of_select {A} (vals : array2 A) (sel : array2 bool) v :
  v ∈ select vals sel ↔
  ∃ y x, lookup2 vals y x = Some v ∧ lookup2 sel y x = Some true.
Proof.
  unfold select. rewrite list_elem_of_join. split.
  - intros (l & Hin & Hl).
    apply elem_of_lookup_zip_with in Hl as (y & vrow & srow & -> & Hv & Hs).
    apply list_elem_of_omap in Hin as (o & Ho & Hid).
    apply elem_of_lookup_zip_with in Ho as (x & v' & s & -> & Hv' & Hs').
    simpl in Hid. destruct s; [|done]. injection Hid as ->.
    exists y, x. split; apply lookup2_Some; eauto.
  - intros (y & x & Hv & Hs).
    apply lookup2_Some in Hv as (vrow & Hvrow & Hv).
    apply lookup2_Some in Hs as (srow & Hsrow & Hs).
    eexists. split; [|by eapply elem_of_lookup_zip_with_2].
    apply list_elem_of_omap. exists (Some v). split; [|done].
    apply elem_of_lookup_zip_with. by exists x, v, true.
Qed.

Lemma lookup2_crop {A} (a : array2 A) (s : slice2) y x v :
  lookup2 (crop a s) y x = Some v ↔
  y < y_stop s - y_start s ∧ x < x_stop s - x_start s ∧
  lookup2 a (y_start s + y) (x_start s + x) = Some v.
Proof.
  unfold crop. rewrite !lookup2_Some. split.
  - intros (row & Hrow & Hv).
    rewrite list_lookup_fmap in Hrow.
    destruct (take _ _ !! y) as [row0|] eqn:Hrow0; [|done].
    injection Hrow as <-. cbv beta in Hv.
    apply lookup_take_Some in Hrow0 as [Hrow0 Hy].
    apply lookup_take_Some in Hv as [Hv Hx].
    rewrite lookup_drop in Hrow0. rewrite lookup_drop in Hv. eauto.
  - intros (Hy & Hx & row & Hrow & Hv). eexists. split.
    + rewrite list_lookup_fmap.
      assert (take (y_stop s - y_start s) (drop (y_start s) a) !! y
              = Some row) as ->; [|done].
      apply lookup_take_Some. by rewrite lookup_drop.
    + apply lookup_take_Some. by rewrite lookup_drop.
Qed.

Lemma lookup2_eq_label i lab y x :
  lookup2 (eq_label i lab) y x = Some true ↔ lookup2 lab y x = Some i.
Proof.
  unfold eq_label. rewrite lookup2_fmap.
  destruct (lookup2 lab y x) as [v|]; simpl; [|done]. split.
  - intros [= H]. apply Nat.eqb_eq in H. by subst.
  - intros [= ->]. by rewrite Nat.eqb_refl.
Qed.

(** The mean of values that all exceed a bound exceeds the bound. *)
Lemma Zsum_gt t l :
  l ≠ [] → Forall (λ v, t < Qc_of_Z v)%Qc l →
  (t * Qc_of_Z (Z.of_nat (length l)) < Qc_of_Z (Zsum l))%Qc.
Proof.
  intros Hne Hall. induction Hall as [|v l Hv Hall IH]; [done|].
  cbn [length Zsum foldr]. rewrite Nat2Z.inj_succ, <-Z.add_1_l.
  rewrite !Z2Qc_inj_add, Qcmult_plus_distr_r.
  rewrite Z2Qc_inj_1, Qcmult_1_r.
  destruct l as [|w l].
  - simpl. change (Z.of_nat 0) with 0%Z. rewrite Z2Qc_inj_0.
    rewrite Qcmult_0_r, !Qcplus_0_r. done.
  - eapply Qclt_trans; [apply Qcplus_lt_mono_r, Hv|].
    apply Qcplus_lt_mono_l, IH. done.
Qed.

Lemma np_mean_Z_gt t l :
  l ≠ [] → Forall (λ v, t < Qc_of_Z v)%Qc l → (t < np_mean_Z l)%Qc.
Proof.
  intros Hne Hall. pose proof (Zsum_gt t l Hne Hall) as Hs.
  unfold np_mean_Z.
  assert (0 < Qc_of_Z (Z.of_nat (length l)))%Qc as Hpos.
  { rewrite <-Z2Qc_inj_0. apply (proj1 (Z2Qc_inj_lt 0 _)).
    destruct l; [done | cbn [length]; lia]. }
  apply (Qcmult_lt_mono_pos_r _ _ _ Hpos).
  unfold Qcdiv. rewrite <-Qcmult_assoc, (Qcmult_comm (/ _)).
  rewrite Qcmult_inv_r, Qcmult_1_r; [done|].
  intros H0. rewrite H0 in Hpos. by apply Qclt_not_eq in Hpos.
Qed.

Lemma all_regions_push P acc bx sz mn :
  all_regions P acc → P bx sz mn → all_regions P (push_region acc bx sz mn).
Proof.
  destruct acc as [[bs ss] ms]. unfold all_regions, r_boxes, r_sizes, r_means.
  simpl. intros Hacc HP. apply Forall3_app; [done|]. by repeat constructor.
Qed.

Lemma rfold_all_regions {B} (Q : B → Prop) P
    (f : regions → B → result regions) l acc r :
  appends_if Q P f → Forall Q l → all_regions P acc →
  rfold f acc l = Ok r → all_regions P r.
Proof.
  intros Hf Hl. revert acc.
  induction Hl as [|b l Hb Hl IH]; intros acc Hacc Hr; simpl in Hr.
  - by injection Hr as <-.
  - destruct (f acc b) as [a|e] eqn:Hfb; simpl in Hr; [|done].
    apply (IH a); [|done].
    destruct (Hf _ _ _ Hb Hfb) as [->|(bx & sz & mn & -> & HP)];
      [done | by apply all_regions_push].
Qed.

Lemma foldr_min_elem y l : foldr Nat.min y l ∈ y :: l.
Proof.
  induction l as [|z l IH]; simpl; [by left|].
  destruct (Nat.min_spec z (foldr Nat.min y l)) as [[_ ->]|[_ ->]].
  - right. by left.
  - apply elem_of_cons in IH as [->|IH]; [by left | by do 2 right].
Qed.

Lemma foldr_max_elem y l : foldr Nat.max y l ∈ y :: l.
Proof.
  induction l as [|z l IH]; simpl; [by left|].
  destruct (Nat.max_spec z (foldr Nat.max y l)) as [[_ ->]|[_ ->]].
  - apply elem_of_cons in IH as [->|IH]; [by left | by do 2 right].
  - right. by left.
Qed.

(** [coords.max(axis=0)] is attained, on each axis, at one of the
    coordinates. *)
Lemma axis_max_attained cs y_max x_max :
  axis_max cs = Ok (y_max, x_max) →
  (∃ p, p ∈ cs ∧ y_max = Z.of_nat p.1) ∧ (∃ p, p ∈ cs ∧ x_max = Z.of_nat p.2).
Proof.
  destruct cs as [|[y x] cs]; [done|]. intros [= <- <-]. split.
  - pose proof (foldr_max_elem y (fst <$> cs)) as H.
    change (y :: (fst <$> cs)) with (fst <$> (y, x) :: cs) in H.
    apply list_elem_of_fmap in H as (p & Hp & Hin). rewrite Hp. eauto.
  - pose proof (foldr_max_elem x (snd <$> cs)) as H.
    change (x :: (snd <$> cs)) with (snd <$> (y, x) :: cs) in H.
    apply list_elem_of_fmap in H as (p & Hp & Hin). rewrite Hp. eauto.
Qed.

Lemma axis_min_nonneg cs y_min x_min :
  axis_min cs = Ok (y_min, x_min) → (0 ≤ y_min ∧ 0 ≤ x_min)%Z.
Proof. destruct cs as [|[y x] cs]; [done|]. intros [= <- <-]. lia. Qed.

Lemma labels_above_bounded ela threshold labeled ymax xmax :
  labels_above ela threshold labeled → bounded ymax xmax ela →
  bounded ymax xmax labeled.
Proof.
  intros [Hs _] Hb y x v Hv.
  destruct (shape_lookup2 labeled ela y x Hs) as [w Hw]; [eauto|].
  by eapply Hb.
Qed.

(** The values of component [i >= 1] all exceed the threshold. *)
Lemma region_values_above ela threshold labeled i :
  labels_above ela threshold labeled → i ≠ 0 →
  Forall (λ v, threshold < Qc_of_Z v)%Qc (select ela (eq_label i labeled)).
Proof.
  intros [_ Hl] Hi. apply Forall_forall. intros v Hv.
  apply elem_of_select in Hv as (y & x & Hv & Hs).
  apply lookup2_eq_label in Hs.
  destruct (Hl y x) as (v' & Hv' & Hgt).
  { unfold label_at. by rewrite Hs. }
  by simplify_eq.
Qed.

Lemma coord_step_region_ok ela threshold labeled min_area ymax xmax :
  labels_above ela threshold labeled → bounded ymax xmax ela →
  appends_if (λ i, i ≠ 0) (region_ok threshold min_area ymax xmax)
    (coord_step ela labeled min_area).
Proof.
  intros Hlab Hb acc i acc' Hi. unfold coord_step.
  destruct (_ <? min_area)%Z eqn:Hsz; [intros [= <-]; by left|].
  apply Z.ltb_ge in Hsz.
  destruct (axis_min _) as [[y0 x0]|] eqn:Hmin; simpl; [|done].
  destruct (axis_max _) as [[y1 x1]|] eqn:Hmax; simpl; [|done].
  destruct (_ && _) eqn:Hdim; intros [= <-]; [right | by left].
  apply andb_prop in Hdim as [Hw Hh]. apply Z.ltb_lt in Hw, Hh.
  apply axis_min_nonneg in Hmin as [Hy0 Hx0].
  pose proof (labels_above_bounded _ _ _ _ _ Hlab Hb) as Hbl.
  apply axis_max_attained in Hmax as [([py px] & Hp & ->) ([qy qx] & Hq & ->)].
  apply elem_of_argwhere in Hp as (vp & Hp & _).
  pose proof Hq as Hq'.
  apply elem_of_argwhere in Hq as (vq & Hq & Hvq).
  apply Hbl in Hp as [Hpy _]. pose proof (Hbl _ _ _ Hq) as [_ Hqx].
  simpl in *. eexists _, _, _. split; [done|].
  split; [unfold box_passes; lia|]. split; [done|].
  split; [|unfold box_within; lia].
  apply np_mean_Z_gt; [|by apply (region_values_above _ _ _ _ Hlab)].
  apply Nat.eqb_eq in Hvq. subst vq.
  destruct Hlab as [Hs _].
  destruct (shape_lookup2 labeled ela qy qx Hs) as [w Hw']; [eauto|].
  assert (w ∈ select ela (eq_label i labeled)) as Hin.
  { apply elem_of_select. exists qy, qx. split; [done|].
    by apply lookup2_eq_label. }
  intros Hnil. rewrite Hnil in Hin. by apply not_elem_of_nil in Hin.
Qed.

Lemma elem_of_enumerate2 {A} (a : array2 A) y x v :
  (y, x, v) ∈ enumerate2 a → lookup2 a y x = Some v.
Proof.
  unfold enumerate2. rewrite list_elem_of_join. intros (l & Hin & Hl).
  apply elem_of_lookup_imap in Hl as (y' & row & -> & Hrow).
  apply elem_of_lookup_imap in Hin as (x' & v' & [= -> -> ->] & Hv).
  apply lookup2_Some. eauto.
Qed.

Lemma grow_fits lab ymax xmax k y x o s :
  lookup2 lab y x = Some (S k) → y < ymax → x < xmax →
  (∀ s0, o = Some s0 → slice_fits lab ymax xmax k s0) →
  grow y x o = Some s → slice_fits lab ymax xmax k s.
Proof.
  intros Hv Hy Hx Ho. destruct o as [s0|]; intros [= <-].
  - destruct (Ho s0 eq_refl) as (Hy1 & Hx1 & y' & x' & Hv' & Hy' & Hx').
    split; [simpl; lia|]. split; [simpl; lia|].
    exists y', x'. simpl. split; [done|]. lia.
  - split; [simpl; lia|]. split; [simpl; lia|].
    exists y, x. simpl. split; [done|]. lia.
Qed.

Lemma foldl_invariant {A B} (I : A → Prop) (f : A → B → A) l acc :
  (∀ a b, b ∈ l → I a → I (f a b)) → I acc → I (foldl f acc l).
Proof.
  revert acc. induction l as [|b l IH]; intros acc Hf Hacc; [done|].
  simpl. apply IH.
  - intros a b' Hb'. apply Hf. by right.
  - apply Hf; [by left | done].
Qed.

(** Every bounding slice that [find_objects] returns lies inside the label
    image and contains a pixel of its label. *)
Lemma find_objects_fits lab ymax xmax k s :
  bounded ymax xmax lab →
  find_objects lab !! k = Some (Some s) → slice_fits lab ymax xmax k s.
Proof.
  intros Hb. revert k s. unfold find_objects.
  apply (foldl_invariant (λ acc : list (option slice2),
    ∀ k s, acc !! k = Some (Some s) → slice_fits lab ymax xmax k s)).
  - intros acc [[y x] v] Hin Hacc.
    apply elem_of_enumerate2 in Hin as Hv.
    destruct v as [|k0]; [done|].
    destruct (Hb _ _ _ Hv) as [Hy Hx].
    intros k1 s1. destruct (decide (k1 = k0)) as [->|Hne].
    + rewrite list_lookup_alter_eq.
      destruct (acc !! k0) as [o|] eqn:Hk0; simpl; [|done].
      intros [= Hg]. eapply grow_fits; [done..| |done].
      intros s0 ->. by apply Hacc.
    + rewrite list_lookup_alter_ne by done. apply Hacc.
  - intros k0 s0 H0. apply lookup_replicate in H0 as [? _]. done.
Qed.

Lemma slice_step_region_ok ela threshold labeled min_area ymax xmax :
  labels_above ela threshold labeled →
  appends_if
    (λ it : nat * option slice2,
       ∀ s, it.2 = Some s → ∃ k, it.1 = S k ∧ slice_fits labeled ymax xmax k s)
    (region_ok threshold min_area ymax xmax)
    (λ acc it, Ok (slice_step ela labeled min_area acc it)).
Proof.
  intros Hlab acc [i [s|]] acc' Hit; unfold slice_step;
    [|intros [= <-]; by left].
  simpl in Hit.
  destruct (Hit s eq_refl) as (k & -> & Hy1 & Hx1 & y & x & Hv & Hy & Hx).
  destruct (_ <? min_area)%Z eqn:Hsz; [intros [= <-]; by left|].
  apply Z.ltb_ge in Hsz.
  destruct (_ && _) eqn:Hdim; intros [= <-]; [right | by left].
  apply andb_prop in Hdim as [Hw Hh]. apply Z.ltb_lt in Hw, Hh.
  eexists _, _, _. split; [done|].
  split; [unfold box_passes; lia|]. split; [done|].
  split; [|unfold box_within; lia].
  apply np_mean_Z_gt.
  - destruct Hlab as [Hs _].
    destruct (shape_lookup2 labeled ela y x Hs) as [w Hw']; [eauto|].
    assert (w ∈ select (crop ela s) (eq_label (S k) (crop labeled s))) as Hin.
    { apply elem_of_select. exists (y - y_start s), (x - x_start s).
      split; [|apply lookup2_eq_label]; apply lookup2_crop;
        (split; [lia|]); (split; [lia|]);
        by replace (y_start s + (y - y_start s)) with y by lia;
           replace (x_start s + (x - x_start s)) with x by lia. }
    intros Hnil. rewrite Hnil in Hin. by apply not_elem_of_nil in Hin.
  - apply Forall_forall. intros v Hin.
    apply elem_of_select in Hin as (y' & x' & Hv' & Hsel).
    apply lookup2_eq_label in Hsel.
    apply lookup2_crop in Hv' as (_ & _ & Hv').
    apply lookup2_crop in Hsel as (_ & _ & Hsel).
    destruct Hlab as [_ Hl].
    destruct (Hl (y_start s + y') (x_start s + x')) as (v' & Hv'' & Hgt).
    { unfold label_at. by rewrite Hsel. }
    by simplify_eq.
Qed.

Lemma enumerate_elem {A} (start : nat) (l : list A) i v :
  (i, v) ∈ enumerate start l → ∃ k, i = start + k ∧ l !! k = Some v.
Proof.
  unfold enumerate. intros H.
  apply elem_of_lookup_imap in H as (k & w & [= -> ->] & Hk). eauto.
Qed.

(** Every region that [find_suspicious_regions] returns, in either
    strategy, passed both filters, has a mean above the threshold and a
    box inside the map. *)
Lemma find_suspicious_regions_all ela threshold min_area ymax xmax :
  bounded ymax xmax ela →
  ∃ r, find_suspicious_regions ela threshold min_area = Ok r ∧
       all_regions (region_ok threshold min_area ymax xmax) r.
Proof.
  intros Hb.
  destruct (find_suspicious_regions_Ok ela threshold min_area) as [r Hr].
  exists r. split; [done|]. unfold find_suspicious_regions in Hr.
  assert (all_regions (region_ok threshold min_area ymax xmax) no_regions)
    as Hnil by constructor.
  destruct (count_true _ =? 0); [by injection Hr as <-|].
  destruct (ndimage_label _) as [lab n] eqn:Hl.
  apply labels_above_of_label in Hl.
  destruct (n =? 0); [by injection Hr as <-|].
  destruct (1000 <? n).
  - unfold extract_by_slices in Hr. rewrite <-rfold_pure in Hr.
    eapply rfold_all_regions;
      [by apply (slice_step_region_ok ela threshold lab min_area ymax xmax)
      | | exact Hnil | exact Hr].
    apply Forall_forall. intros [i o] Hin s Ho. simpl in *. subst o.
    apply enumerate_elem in Hin as (k & -> & Hk). exists k. split; [done|].
    apply find_objects_fits; [|done].
    by eapply labels_above_bounded.
  - unfold extract_by_coords, coord_loop in Hr.
    eapply rfold_all_regions;
      [by apply (coord_step_region_ok ela threshold lab min_area ymax xmax)
      | | exact Hnil | exact Hr].
    apply Forall_forall. intros i Hi. apply elem_of_seq in Hi. lia.
Qed.

Lemma all_regions_elim threshold min_area ymax xmax r :
  all_regions (region_ok threshold min_area ymax xmax) r →
  aligned r ∧
  Forall box_passes (r_boxes r) ∧
  Forall (λ sz, (min_area ≤ sz)%Z) (r_sizes r) ∧
  Forall (λ mn, (threshold < mn)%Qc) (r_means r) ∧
  Forall (box_within (Z.of_nat ymax) (Z.of_nat xmax)) (r_boxes r).
Proof.
  unfold all_regions, aligned. intros H. split.
  - split; [by eapply Forall3_length_lm | by eapply Forall3_length_lr].
  - induction H as [|bx sz mn bs ss ms (H1 & H2 & H3 & H4) _ IH].
    + by repeat split.
    + destruct IH as (IH1 & IH2 & IH3 & IH4).
      split_and!; by constructor.
Qed.

(** The indices of a map are below its height and the length of its
    longest row. *)
Lemma bounded_by_shape {A} (a : array2 A) :
  bounded (length a) (S (max_list (shape a))) a.
Proof.
  intros y x v Hv. apply lookup2_Some in Hv as (row & Hrow & Hv). split.
  - by eapply lookup_lt_Some.
  - apply lookup_lt_Some in Hv.
    assert (length row ≤ max_list (shape a)); [|lia].
    apply max_list_elem_of_le. unfold shape.
    apply list_elem_of_fmap. exists row. split; [done|].
    by eapply list_elem_of_lookup_2.
Qed.

Lemma bounded_rectangular {A} (h w : nat) (a : array2 A) :
  rectangular h w a → bounded h w a.
Proof.
  intros [Hh Hw] y x v Hv. apply lookup2_Some in Hv as (row & Hrow & Hv).
  split.
  - rewrite <-Hh. by eapply lookup_lt_Some.
  - rewrite Forall_forall in Hw. rewrite <-(Hw row).
    + by eapply lookup_lt_Some.
    + by eapply list_elem_of_lookup_2.
Qed.

(** X8. [find_suspicious_regions] returns for every map, threshold and
    minimal area, in either strategy; the three lists it returns have the
    same length, every box has a non-negative corner and a width and a
    height above 10, and every region size is at least [min_area]. *)
Theorem regions_pass_both_filters (ela : array2 Z) (threshold : Qc)
    (min_area : Z) :
  ∃ r,
    find_suspicious_regions ela threshold min_area = Ok r ∧
    length (r_sizes r) = length (r_boxes r) ∧
    length (r_means r) = length (r_boxes r) ∧
    Forall box_passes (r_boxes r) ∧
    Forall (λ sz, (min_area ≤ sz)%Z) (r_sizes r).
Proof.
  destruct (find_suspicious_regions_all ela threshold min_area _ _
              (bounded_by_shape ela)) as (r & Hr & Hall).
  apply all_regions_elim in Hall as ([H1 H2] & H3 & H4 & _).
  exists r. by split_and!.
Qed.

(** X9. The mean intensity reported for a region is above the threshold:
    the labelling only labels pixels of the thresholded mask, the opening
    of a noisy mask only removes pixels, and both strategies average the
    map over pixels of one label. *)
Theorem region_means_exceed_threshold (ela : array2 Z) (threshold : Qc)
    (min_area : Z) :
  ∃ r,
    find_suspicious_regions ela threshold min_area = Ok r ∧
    Forall (λ mn, (threshold < mn)%Qc) (r_means r).
Proof.
  destruct (find_suspicious_regions_all ela threshold min_area _ _
              (bounded_by_shape ela)) as (r & Hr & Hall).
  apply all_regions_elim in Hall as (_ & _ & _ & H & _).
  by exists r.
Qed.



(** ** The boxes of a response *)

Lemma select_top_boxes_take boxes :
  select_top_boxes boxes = take TOP_N_BOXES (sorted_desc box_area boxes).
Proof.
  unfold select_top_boxes. rewrite fmap_take.
  by rewrite (sorted_desc_paired box_area).
Qed.

Lemma select_top_boxes_elem b boxes :
  b ∈ select_top_boxes boxes → b ∈ boxes.
Proof.
  rewrite select_top_boxes_take. intros Hb.
  rewrite <-(sorted_desc_Permutation box_area boxes).
  eapply elem_of_sublist; [exact Hb | apply sublist_take].
Qed.

Lemma score_Ok (rf_model : Classifier) (scaler : Scaler) v :
  (∀ x, 2 ≤ length (predict_proba rf_model x)) →
  ∃ panel, score rf_model scaler v = Ok panel.
Proof.
  intros Hp. unfold score, py_index.
  specialize (Hp (transform scaler v)).
  destruct (predict_proba rf_model (transform scaler v)) as [|p0 [|p1 ps]];
    simpl in *; [lia | lia | eauto].
Qed.




(** ** Histogram and percentile features *)

Lemma Qc_frac_unit n g :
  (0 ≤ n ≤ g)%Z → (0 < g)%Z → (0 ≤ Qc_of_Z n / Qc_of_Z g ≤ 1)%Qc.
Proof.
  intros Hn Hg.
  assert (0 < Qc_of_Z g)%Qc as Hpos.
  { rewrite <-Z2Qc_inj_0. by apply (proj1 (Z2Qc_inj_lt 0 _)). }
  assert (Qc_of_Z g ≠ 0%Qc) as Hne.
  { intros H0. rewrite H0 in Hpos. by apply Qclt_not_eq in Hpos. }
  split.
  - unfold Qcdiv. rewrite <-(Qcmult_0_l (/ Qc_of_Z g)).
    apply Qcmult_le_mono_pos_r; [by apply Qcinv_pos|].
    rewrite <-Z2Qc_inj_0. apply (proj1 (Z2Qc_inj_le 0 _)). lia.
  - apply (Qcmult_le_mono_pos_r _ _ (Qc_of_Z g) Hpos).
    unfold Qcdiv. rewrite <-Qcmult_assoc, (Qcmult_comm (/ Qc_of_Z g)).
    rewrite Qcmult_inv_r, Qcmult_1_r, Qcmult_1_l by done.
    apply (proj1 (Z2Qc_inj_le _ _)). lia.
Qed.

Lemma hist_bin_lt v k : hist_bin v = Some k → k < 10.
Proof.
  unfold hist_bin. destruct (_ && _); [|done]. intros [= <-]. lia.
Qed.

(** The ten bins count every value of the range 0..255 once. *)
Lemma Zsum_np_histogram l :
  Zsum (np_histogram l)
  = Z.of_nat (length (filter (λ v, is_Some (hist_bin v)) l)).
Proof.
  induction l as [|v l IH]; [done|].
  rewrite filter_cons. revert IH. unfold np_histogram.
  cbn [seq fmap list_fmap Zsum foldr]. rewrite !filter_cons.
  destruct (hist_bin v) as [k|] eqn:Hk.
  - apply hist_bin_lt in Hk.
    rewrite (decide_True (P := is_Some (Some k))) by (by eexists).
    do 10 (destruct k as [|k]; [repeat (case_decide; simplify_eq);
                                 cbn [length]; lia|]).
    lia.
  - rewrite (decide_False (P := is_Some None)) by (by intros [? ?]).
    repeat (case_decide; simplify_eq). lia.
Qed.

Lemma filter_all {A} (P : A → Prop) `{∀ x, Decision (P x)} (l : list A) :
  Forall P l → filter P l = l.
Proof.
  induction 1 as [|x l Hx _ IH]; [done|].
  by rewrite filter_cons, decide_True, IH.
Qed.

Lemma hist_bin_in_range v : (0 ≤ v ≤ 255)%Z → is_Some (hist_bin v).
Proof.
  intros Hv. unfold hist_bin.
  destruct (Z.leb_spec 0 v), (Z.leb_spec v 255); simpl; eauto; lia.
Qed.

Lemma take_drop_hist {A} (l1 l2 h rest : list A) :
  length l1 + length l2 = 12 → length h = 10 →
  take 10 (drop 12 (l1 ++ l2 ++ h ++ rest)) = h.
Proof.
  intros H12 Hh. rewrite app_assoc.
  rewrite drop_app_length' by (by rewrite length_app).
  by rewrite take_app_length'.
Qed.

(** X12. The ten histogram features (entries 12..21 of the feature
    vector) are the ten bin counts of [np.histogram] divided by the number
    of pixels. On a map of uint8 pixels every pixel falls into exactly one
    bin (the value 255 into the last), so the ten counts add up to the
    number of pixels; each count is between 0 and the number of pixels and
    each feature between 0 and 1. *)
Theorem histogram_counts_cover_every_pixel (np_sqrt : Qc → Qc)
    (threshold_multiplier : Qc) (min_region_size : Z)
    (ela_array : array2 Z) :
  ravel ela_array ≠ [] →
  Forall (λ v, (0 ≤ v ≤ 255)%Z) (ravel ela_array) →
  ∃ out,
    extract_features np_sqrt threshold_multiplier min_region_size ela_array
      = Ok out ∧
    let counts := np_histogram (ravel ela_array) in
    let size := Z.of_nat (array_size ela_array) in
    let hist_norm := take 10 (drop 12 (features out)) in
    hist_norm = (λ c, Qc_of_Z c / Qc_of_Z size)%Qc <$> counts ∧
    length counts = 10 ∧
    Forall (λ c, (0 ≤ c ≤ size)%Z) counts ∧
    Zsum counts = size ∧
    Forall (λ q, (0 ≤ q ≤ 1)%Qc) hist_norm.
Proof.
  intros Hne Hrange.
  destruct (extract_features_Ok np_sqrt threshold_multiplier min_region_size
              ela_array Hne)
    as (max_v & r & avg & mx & ai & sd & _ & _ & _ & ->).
  eexists. split; [reflexivity|]. cbn [features]. cbv zeta.
  pose proof (length_np_histogram (ravel ela_array)) as Hlen.
  rewrite take_drop_hist;
    [|reflexivity|by rewrite length_fmap, length_np_histogram].
  assert (0 < Z.of_nat (array_size ela_array))%Z as Hpos.
  { rewrite array_size_ravel. destruct (ravel ela_array); [done|].
    cbn [length]. lia. }
  assert (Forall (λ c, (0 ≤ c ≤ Z.of_nat (array_size ela_array))%Z)
            (np_histogram (ravel ela_array))) as Hcounts.
  { apply Forall_forall. intros c Hc. unfold np_histogram in Hc.
    apply list_elem_of_fmap in Hc as (k & -> & _).
    split; [lia|]. apply inj_le. rewrite array_size_ravel.
    apply length_filter. }
  split; [done|]. split; [done|]. split; [done|]. split.
  - rewrite Zsum_np_histogram, filter_all, array_size_ravel; [done|].
    eapply Forall_impl; [exact Hrange|]. apply hist_bin_in_range.
  - apply Forall_fmap. eapply Forall_impl; [exact Hcounts|].
    intros c Hc. simpl. by apply Qc_frac_unit.
Qed.

Lemma histogram_counts_cover_every_pixel_witness :
  ∃ out,
    extract_features sqrt_fixed (Qc_of_Z 2) 50 [[1; 2; 3]; [4; 5; 250]]%Z
      = Ok out ∧
    np_histogram [1; 2; 3; 4; 5; 250]%Z = [5; 0; 0; 0; 0; 0; 0; 0; 0; 1]%Z ∧
    Zsum (np_histogram [1; 2; 3; 4; 5; 250]%Z) = 6%Z.
Proof.
  destruct (histogram_counts_cover_every_pixel sqrt_fixed (Qc_of_Z 2) 50
              [[1; 2; 3]; [4; 5; 250]]%Z)
    as (out & Hout & _ & _ & _ & Hsum & _).
  - discriminate.
  - repeat constructor; discriminate.
  - exists out. split; [exact Hout|]. split; [reflexivity | exact Hsum].
Defined.

Lemma Qc_of_Z_ne_0 z : z ≠ 0%Z → Qc_of_Z z ≠ 0%Qc.
Proof.
  intros Hz H0. apply Hz. rewrite <-Z2Qc_inj_0 in H0. by apply Z2Qc_inj.
Qed.

Lemma Qc_half_sum a b :
  ((a + b) / Qc_of_Z 2 = a + 1 / Qc_of_Z 2 * (b - a))%Qc.
Proof.
  pose proof (Qc_of_Z_ne_0 2 ltac:(done)) as Hne.
  assert (Qc_of_Z 2 = 1 + 1)%Qc as Htwo by (apply Qc_is_canon; reflexivity).
  revert Hne. rewrite Htwo. intros Hne. field. exact Hne.
Qed.

Lemma Qc_half_gamma c :
  ((Qc_of_Z 100 * c + Qc_of_Z 50) / Qc_of_Z 100 - c = 1 / Qc_of_Z 2)%Qc.
Proof.
  pose proof (Qc_of_Z_ne_0 100 ltac:(done)) as H100.
  pose proof (Qc_of_Z_ne_0 2 ltac:(done)) as H2.
  assert (Qc_of_Z 50 = Qc_of_Z 100 * (1 / Qc_of_Z 2))%Qc as ->
    by (apply Qc_is_canon; reflexivity).
  revert H100 H2. generalize (Qc_of_Z 100) (Qc_of_Z 2). intros h t Hh Ht.
  field. by split.
Qed.

Lemma Qc_zero_gamma a b c :
  (a + (c * Qc_of_Z 100 / Qc_of_Z 100 - c) * (b - a) = a)%Qc.
Proof.
  pose proof (Qc_of_Z_ne_0 100 ltac:(done)) as H100.
  revert H100. generalize (Qc_of_Z 100). intros h Hh. field. exact Hh.
Qed.

(** [np.median] is the 50th percentile of [np.percentile]. *)
Lemma np_median_percentile l : np_median l = percentile_at l 50.
Proof.
  unfold np_median, percentile_at.
  generalize (np_sort l). intros s.
  destruct (Nat.even (length s)) eqn:Heven.
  - apply Nat.even_spec in Heven as [k Hk]. rewrite Hk.
    replace (Nat.div (2 * k) 2) with k
      by (apply Nat.div_unique_exact; lia).
    destruct k as [|k].
    + change (Z.of_nat (2 * 0)) with 0%Z.
      change (50 * (0 - 1) / 100)%Z with (-1)%Z.
      change (Z.to_nat (-1)) with 0. change (0 - 1) with 0.
      change (Z.to_nat (Z.min (-1 + 1) (0 - 1))) with 0.
      change (50 * (0 - 1))%Z with (100 * (-1) + 50)%Z.
      rewrite Z2Qc_inj_add, Z2Qc_inj_mul, Qc_half_gamma.
      apply Qc_half_sum.
    + assert ((50 * (Z.of_nat (2 * S k) - 1) / 100)%Z = Z.of_nat k) as Hlo.
      { symmetry. apply (Z.div_unique _ _ _ 50); lia. }
      rewrite Hlo.
      replace (Z.min (Z.of_nat k + 1) (Z.of_nat (2 * S k) - 1))
        with (Z.of_nat (S k)) by lia.
      rewrite !Nat2Z.id. replace (S k - 1) with k by lia.
      replace (50 * (Z.of_nat (2 * S k) - 1))%Z
        with (100 * Z.of_nat k + 50)%Z by lia.
      rewrite Z2Qc_inj_add, Z2Qc_inj_mul, Qc_half_gamma.
      apply Qc_half_sum.
  - assert (Nat.odd (length s) = true) as Hodd
      by (rewrite <-Nat.negb_even, Heven; done).
    apply Nat.odd_spec in Hodd as [k Hk]. rewrite Hk.
    replace (Nat.div (2 * k + 1) 2) with k
      by (apply (Nat.div_unique _ _ _ 1); lia).
    assert ((50 * (Z.of_nat (2 * k + 1) - 1) / 100)%Z = Z.of_nat k) as Hlo.
    { symmetry. apply (Z.div_unique _ _ _ 0); lia. }
    rewrite Hlo, Nat2Z.id.
    replace (50 * (Z.of_nat (2 * k + 1) - 1))%Z
      with (Z.of_nat k * 100)%Z by lia.
    rewrite Z2Qc_inj_mul. symmetry. apply Qc_zero_gamma.
Qed.

(** X13. Two entries of the feature vector always coincide: the median
    (entry 3, also [median_error] of the summary) and the 50th percentile
    (entry 23). [np.median] takes the middle value of the sorted map or the
    mean of the two middle values, and the linear interpolation of
    [np.percentile] at 50 gives the same number. *)
Theorem median_feature_is_p50 (np_sqrt : Qc → Qc) (threshold_multiplier : Qc)
    (min_region_size : Z) (ela_array : array2 Z) :
  ravel ela_array ≠ [] →
  ∃ out m,
    extract_features np_sqrt threshold_multiplier min_region_size ela_array
      = Ok out ∧
    m = np_median (ravel ela_array) ∧
    features out !! 3 = Some m ∧
    features out !! 23 = Some m ∧
    fs_median_error (feature_dict out) = m.
Proof.
  intros Hne.
  destruct (extract_features_Ok np_sqrt threshold_multiplier min_region_size
              ela_array Hne)
    as (max_v & r & avg & mx & ai & sd & _ & _ & _ & ->).
  eexists _, _. split; [reflexivity|]. split; [reflexivity|].
  cbn [features feature_dict fs_median_error]. split; [done|].
  split; [|done].
  pose proof (length_np_histogram (ravel ela_array)) as Hlen.
  destruct (np_histogram (ravel ela_array))
    as [|h0 [|h1 [|h2 [|h3 [|h4 [|h5 [|h6 [|h7 [|h8 [|h9 [|h10 hs]]]]]]]]]]];
    try discriminate Hlen.
  cbn [fmap list_fmap app lookup list_lookup].
  by rewrite np_median_percentile.
Qed.

Lemma median_feature_is_p50_witness :
  ∃ out,
    extract_features sqrt_fixed (Qc_of_Z 2) 50 [[1; 2; 3]; [4; 5; 250]]%Z
      = Ok out ∧
    features out !! 3 = features out !! 23.
Proof.
  destruct (median_feature_is_p50 sqrt_fixed (Qc_of_Z 2) 50
              [[1; 2; 3]; [4; 5; 250]]%Z) as (out & m & Hout & _ & H3 & H23 & _).
  - discriminate.
  - exists out. split; [exact Hout|]. rewrite H3, H23. reflexivity.
Defined.

(** ** Heat map normalisation *)

Lemma lookup2_ravel {A} (a : array2 A) y x v :
  lookup2 a y x = Some v → v ∈ ravel a.
Proof.
  intros Hv. apply lookup2_Some in Hv as (row & Hrow & Hv).
  unfold ravel. apply list_elem_of_join. exists row.
  split; by eapply list_elem_of_lookup_2.
Qed.

Lemma np_max_ge l hi v : np_max l = Ok hi → v ∈ l → (v ≤ hi)%Z.
Proof.
  destruct l as [|v0 l]; [done|]. intros [= <-]. apply foldr_max_ge.
Qed.

Lemma np_min_le l lo v : np_min l = Ok lo → v ∈ l → (lo ≤ v)%Z.
Proof.
  destruct l as [|v0 l]; [done|]. intros [= <-]. apply foldr_min_le.
Qed.

(** X14. The normalisation of [_ela_heatmap_image]: on the empty map it
    raises ValueError; on any other map it returns an array of the same
    shape whose entry for a pixel [v] is [(v - min) / (max - min)] (divided
    by 1 when the range is 0), a number between 0 and 1 that is 0 at the
    pixels of minimal and, when the range is not 0, 1 at the pixels of
    maximal value. The colour map is therefore never asked for a value
    outside the unit interval. *)
Theorem heatmap_values_in_unit_interval (ela_array : array2 Z) :
  (ravel ela_array = [] → heatmap_normalized ela_array = Raise ValueError) ∧
  (ravel ela_array ≠ [] →
   ∃ norm hi lo,
     heatmap_normalized ela_array = Ok norm ∧
     np_max (ravel ela_array) = Ok hi ∧
     np_min (ravel ela_array) = Ok lo ∧
     shape norm = shape ela_array ∧
     Forall (λ q, (0 ≤ q ≤ 1)%Qc) (ravel norm) ∧
     ∀ y x v, lookup2 ela_array y x = Some v →
       ∃ q, lookup2 norm y x = Some q ∧
            (q = Qc_of_Z (v - lo) / Qc_of_Z (guarded_ptp (hi - lo)))%Qc ∧
            (0 ≤ q ≤ 1)%Qc ∧
            (v = lo → q = 0%Qc) ∧
            (v = hi → lo ≠ hi → q = 1%Qc)).
Proof.
  split.
  - intros Hnil. unfold heatmap_normalized. by rewrite Hnil.
  - intros Hne.
    destruct (np_max_Ok _ Hne) as [hi Hhi].
    destruct (np_min_Ok _ Hne) as [lo Hlo].
    assert (∀ v, v ∈ ravel ela_array →
              (0 ≤ v - lo ≤ guarded_ptp (hi - lo))%Z ∧
              (0 < guarded_ptp (hi - lo))%Z) as Hbound.
    { intros v Hv. pose proof (np_max_ge _ _ _ Hhi Hv).
      pose proof (np_min_le _ _ _ Hlo Hv). unfold guarded_ptp.
      destruct (Z.eqb_spec (hi - lo) 0); lia. }
    unfold heatmap_normalized. rewrite Hhi, Hlo. cbn [mbind result_bind].
    eexists _, hi, lo. split; [reflexivity|]. split; [done|]. split; [done|].
    split; [apply shape_fmap|]. split.
    + rewrite ravel_fmap. apply Forall_fmap, Forall_forall. intros v Hv.
      simpl. destruct (Hbound v Hv). by apply Qc_frac_unit.
    + intros y x v Hv. rewrite lookup2_fmap, Hv. simpl.
      eexists. split; [reflexivity|]. split; [reflexivity|].
      destruct (Hbound v (lookup2_ravel _ _ _ _ Hv)) as [Hb Hg].
      split; [by apply Qc_frac_unit|]. split.
      * intros ->. rewrite Z.sub_diag, Z2Qc_inj_0. unfold Qcdiv.
        apply Qcmult_0_l.
      * intros -> Hrange. unfold guarded_ptp.
        destruct (Z.eqb_spec (hi - lo) 0); [lia|].
        unfold Qcdiv. apply Qcmult_inv_r. apply Qc_of_Z_ne_0. lia.
Qed.

(** ** The edge features *)

Lemma uint8_sub_wrapped p n :
  uint8 p → uint8 n → uint8_sub n p = wrapped_step p n.
Proof.
  unfold uint8, uint8_sub, wrapped_step. intros Hp Hn.
  destruct (Z.leb_spec p n).
  - apply Z.mod_small. lia.
  - symmetry. apply (Z.mod_unique_pos _ _ (-1)); lia.
Qed.

Lemma uint8_lookup2 (a : array2 Z) y x v :
  Forall uint8 (ravel a) → lookup2 a y x = Some v → uint8 v.
Proof.
  intros Hall Hv. rewrite Forall_forall in Hall.
  by eapply Hall, lookup2_ravel.
Qed.


